(** * Overcooked-AI generalization evaluation notebook (demo.ipynb)

    A shallow embedding of the evaluation notebook: the single-layout cell,
    the greedy sweep, the sampling sweep and the reporting cells.

    The notebook is straight-line Python driving external collaborators
    (the environment, the PPO agent, Keras weight loading, the episode
    runner [evaluate_policy], numpy).  Its cells are embedded in a small
    monad that threads the state of the outside world, records every call
    made to a collaborator and propagates Python exceptions.

    Numbers: the rewards are Python floats and numpy reduces them in
    float64.  Here a reward is an exact rational and [np.mean], [np.std]
    are read in exact arithmetic, the square root being kept symbolic and
    read in the real numbers.  This reading is what float64 computes on an
    empty list ([nan]) and on a single reward (the mean is the reward, the
    deviation 0).  On two or more rewards float64 rounds each step and the
    last digits depend on the order in which numpy sums, which is not
    modelled: the value of a statistic is stated below in those two cases
    only, and elsewhere a statistic is carried as the result of the
    reduction over the rewards of the runs. *)

From Stdlib Require Import List String Ascii Bool Arith ZArith QArith Reals Qreals
  Lia Lra.
Import ListNotations.

Local Open Scope string_scope.
Local Open Scope list_scope.

(* ================================================================== *)
(** * numpy reductions used by the notebook *)

Module Numpy.

(** A numpy scalar as the notebook can obtain one: [nan] (a reduction over
    an empty array), an exact rational, or the square root of one. *)
Inductive npfloat : Type :=
| NaN
| Num (q : Q)
| Sqrt (q : Q).

(** The real number a numpy scalar stands for; [nan] stands for none. *)
Definition np_real (x : npfloat) : option R :=
  match x with
  | NaN => None
  | Num q => Some (Q2R q)
  | Sqrt q => Some (sqrt (Q2R q))
  end.

Definition Qsum (l : list Q) : Q := fold_right Qplus 0%Q l.

Definition Qlen (l : list Q) : Q := inject_Z (Z.of_nat (List.length l)).

(** [np.mean(a)]: the sum divided by the number of elements; [nan] on an
    empty array (numpy warns, it does not raise).  Exact arithmetic: equal
    to the float64 result on one element, not in general on more. *)
Definition np_mean (a : list Q) : npfloat :=
  match a with
  | [] => NaN
  | _ => Num (Qsum a / Qlen a)
  end.

(** [np.var(a, ddof)]: numpy computes [arrmean = sum(a) / n], then
    [x = (a - arrmean) ** 2], then [sum(x) / max(n - ddof, 0)].  A zero
    divisor yields a non-finite value (with a warning), read as [NaN].
    Exact arithmetic, as for [np_mean]: on one element with [ddof = 0] the
    float64 steps are [a - a = 0], [0 * 0 = 0], [0 / 1 = 0], all exact. *)
Definition np_var_ddof (ddof : nat) (a : list Q) : npfloat :=
  match a with
  | [] => NaN
  | _ =>
      let arrmean := (Qsum a / Qlen a)%Q in
      let x := map (fun v => ((v - arrmean) * (v - arrmean))%Q) a in
      let rcount := Nat.max (List.length a - ddof) 0 in
      if (rcount =? 0)%nat then NaN
      else Num (Qsum x / inject_Z (Z.of_nat rcount))
  end.

(** [np.std(a, ddof)] is the square root of [np.var(a, ddof)]; the root is
    kept symbolic, and is exact in float64 when the variance is 0. *)
Definition np_std_ddof (ddof : nat) (a : list Q) : npfloat :=
  match np_var_ddof ddof a with
  | Num v => Sqrt v
  | other => other
  end.

(** The notebook calls [np.std(rewards)]: [ddof] keeps its default, 0. *)
Definition np_std (a : list Q) : npfloat := np_std_ddof 0 a.

End Numpy.
Export Numpy.

(* ================================================================== *)
(** * Reference statistics, as the specification words them *)

Module Stats.

(** Arithmetic mean of a collection of rewards. *)
Definition arithmetic_mean (rewards : list Q) : Q :=
  (Qsum rewards / Qlen rewards)%Q.

(** Sum of the squared deviations from the arithmetic mean. *)
Definition squared_deviations (rewards : list Q) : Q :=
  Qsum (map (fun r => ((r - arithmetic_mean rewards) *
                       (r - arithmetic_mean rewards))%Q) rewards).

(** Population variance: the squared deviations divided by the number of
    rewards. *)
Definition population_variance (rewards : list Q) : Q :=
  (squared_deviations rewards / Qlen rewards)%Q.

End Stats.
Export Stats.

(* ================================================================== *)
(** * Python values, objects and the record of external calls *)

Local Open Scope nat_scope.

Module Py.

(** A raised Python exception, by its message. *)
Definition exn := string.

Inductive result (A : Type) : Type :=
| Ok (a : A)
| Raise (e : exn).
Arguments Ok {A} a.
Arguments Raise {A} e.

(** An environment object.  [env_id] is the identity of the instance;
    the two dimensions are [env.observation_space.shape[0]] and
    [env.action_space.n]. *)
Record Env : Type := {
  env_id : nat;
  env_layouts : list string;
  observation_space_shape0 : nat;
  action_space_n : nat
}.

(** A [PPOAgent] object with the arguments it was constructed from. *)
Record Agent : Type := {
  agent_id : nat;
  agent_obs_dim : nat;
  agent_act_dim : nat;
  arch_variant : string;
  use_reward_shaping : bool;
  use_decay : bool
}.

(** The two Keras models of an agent: [agent.policy] and [agent.value]. *)
Inductive network : Type := PolicyNet | ValueNet.

(** What [print] receives: literal text and formatted fields
    ([{:<25}], [{:>8.2f}], a bare [{}]). *)
Inductive pyval : Type :=
| VStr (s : string)
| VNum (x : npfloat).

Inductive frag : Type :=
| Lit (s : string)
| Fmt (spec : string) (v : pyval).

Definition line := list frag.

(** The text of a printed line made of literals and bare string fields;
    number formatting and padding are left to Python. *)
Fixpoint render (l : line) : option string :=
  match l with
  | [] => Some ""
  | Lit s :: t => option_map (fun r => (s ++ r)%string) (render t)
  | Fmt "" (VStr s) :: t => option_map (fun r => (s ++ r)%string) (render t)
  | Fmt _ _ :: _ => None
  end.

(** One call to a collaborator, with what it returned or raised.
    [EvDisplay path] is a call [display(Image(filename=path))] that
    returned, [EvDisplayError path e] one that raised [e]. *)
Inductive event : Type :=
| EvEnv (layouts : list string) (r : result Env)
| EvAgent (obs_dim act_dim : nat) (arch : string) (shaping decay : bool)
          (r : result Agent)
| EvForward (net : network) (a : Agent) (dim : nat) (r : result unit)
| EvLoad (net : network) (a : Agent) (path : string) (r : result unit)
| EvEval (a : Agent) (e : Env) (greedy save_gif : bool)
         (gif_path : option string) (r : result Q)
| EvExists (path : string) (b : bool)
| EvDisplay (path : string)
| EvPrint (l : line)
| EvDisplayError (path : string) (e : exn).

(** The collaborators the notebook imports, as transitions of an outside
    world [W] (random generator, file system, TensorFlow):
    - [ext_env layouts]: [GeneralizedOvercooked(layouts)], giving the
      observation dimension and the number of actions of the new instance;
    - [ext_agent]: [PPOAgent(obs_dim, act_dim, arch_variant=...,
      use_reward_shaping=..., use_decay=...)];
    - [ext_forward net agent dim]: a forward pass of [agent.policy] or
      [agent.value] on [tf.random.uniform((1, dim))];
    - [ext_load_weights net agent path]: [agent.<net>.load_weights(path)];
    - [ext_evaluate_policy]: [evaluate_policy(agent, env, greedy=...,
      save_gif=..., gif_path=...)], giving the episode's total reward;
    - [ext_exists]: [os.path.exists], which does not raise;
    - [ext_display path]: [display(Image(filename=path))], which reads the
      file and raises when it cannot be opened or is not an image.
    Each other call may raise. *)
Record Externals (W : Type) : Type := {
  ext_env : list string -> W -> result (nat * nat) * W;
  ext_agent : nat -> nat -> string -> bool -> bool -> W -> result unit * W;
  ext_forward : network -> Agent -> nat -> W -> result unit * W;
  ext_load_weights : network -> Agent -> string -> W -> result unit * W;
  ext_evaluate_policy :
    Agent -> Env -> bool -> bool -> option string -> W -> result Q * W;
  ext_exists : string -> W -> bool;
  ext_display : string -> W -> result unit
}.
Arguments ext_env {W}.
Arguments ext_agent {W}.
Arguments ext_forward {W}.
Arguments ext_load_weights {W}.
Arguments ext_evaluate_policy {W}.
Arguments ext_exists {W}.
Arguments ext_display {W}.

(** The interpreter state: the outside world and the next fresh object
    identity. *)
Record state (W : Type) : Type := {
  world : W;
  next_id : nat
}.
Arguments world {W}.
Arguments next_id {W}.

(** What running a piece of the notebook yields: its value or the exception
    that stopped it, the state reached, and the calls made, oldest first. *)
Record outcome (W A : Type) : Type := {
  res : result A;
  final : state W;
  emitted : list event
}.
Arguments res {W A}.
Arguments final {W A}.
Arguments emitted {W A}.

Definition M (W A : Type) : Type := state W -> outcome W A.

Definition ret {W A} (a : A) : M W A :=
  fun s => {| res := Ok a; final := s; emitted := [] |}.

(** The calls [t] made before the outcome [o] was reached. *)
Definition after {W A} (t : list event) (o : outcome W A) : outcome W A :=
  match o with
  | {| res := r; final := s; emitted := t' |} =>
      {| res := r; final := s; emitted := t ++ t' |}
  end.

(** Sequencing: an exception skips everything that follows. *)
Definition bind {W A B} (m : M W A) (f : A -> M W B) : M W B :=
  fun s =>
    match m s with
    | {| res := Ok a; final := s'; emitted := t |} => after t (f a s')
    | {| res := Raise e; final := s'; emitted := t |} =>
        {| res := Raise e; final := s'; emitted := t |}
    end.

(** [for x in xs: body], the loop's local state threaded as [acc]. *)
Fixpoint for_in {W A S} (xs : list A) (body : S -> A -> M W S) (acc : S)
  : M W S :=
  match xs with
  | [] => ret acc
  | x :: t => bind (body acc x) (fun acc' => for_in t body acc')
  end.

End Py.
Export Py.

Declare Scope py_scope.
Delimit Scope py_scope with py.
Notation "x <- m ;; k" := (bind m (fun x => k))
  (at level 100, m at next level, right associativity) : py_scope.
Notation "m ;; k" := (bind m (fun _ => k))
  (at level 100, right associativity) : py_scope.
Notation "' p <- m ;; k" := (bind m (fun x => match x with p => k end))
  (at level 100, p pattern, m at next level, right associativity) : py_scope.

(* ================================================================== *)
(** * Constants of the notebook *)

(** The line feed of ["\n"]. *)
Definition nl : string := String (ascii_of_nat 10) EmptyString.

(** [s * n] on Python strings. *)
Fixpoint str_mul (s : string) (n : nat) : string :=
  match n with
  | O => EmptyString
  | S k => (s ++ str_mul s k)%string
  end.

Definition policy_weights_cramped_room : string :=
  "cramped_room/checkpoints/policy_PPO_deep_shaping-decay-15000new_setup_15000_full_log_2_final.weights.h5".
Definition value_weights_cramped_room : string :=
  "cramped_room/checkpoints/value_PPO_deep_shaping-decay-15000new_setup_15000_full_log_2_final.weights.h5".

Definition test_layouts : list string :=
  ["cramped_room"; "asymmetric_advantages"; "forced_coordination"].

Definition policy_weights : string :=
  "generalization/multilayout_checkpoints/policy_PPO_deep_shaping-decay-20000multilayout_run_20000_final.weights.h5".
Definition value_weights : string :=
  "generalization/multilayout_checkpoints/value_PPO_deep_shaping-decay-20000multilayout_run_20000_final.weights.h5".

(** Number of sampling episodes per layout. *)
Definition N_RUNS : nat := 10.

(** An entry of [results_greedy]: [(layout, reward, gif_path)]. *)
Definition greedy_result : Type := string * Q * string.

(** An entry of [results_sampling]:
    [(layout, mean_reward, std_reward, path)]. *)
Definition sampling_result : Type := string * npfloat * npfloat * string.

(** The layout an entry is about, and the GIF path it records. *)
Definition greedy_layout (r : greedy_result) : string :=
  let '(layout, _, _) := r in layout.

Definition sampling_layout (r : sampling_result) : string :=
  let '(layout, _, _, _) := r in layout.

Definition sampling_recorded_gif (r : sampling_result) : string :=
  let '(_, _, _, gif_path) := r in gif_path.

(* ================================================================== *)
(** * The notebook *)

Section Notebook.

Context {W : Type} (X : Externals W).

Local Open Scope py_scope.

(** A call to a collaborator: the world moves, the call is recorded, and an
    exception propagates.  [fresh] identities are consumed on success. *)
Definition extcall {A B} (f : W -> result A * W) (mk : nat -> A -> B)
    (fresh : nat) (ev : result B -> event) : M W B :=
  fun s =>
    let (r, w) := f (world s) in
    match r with
    | Ok a =>
        let b := mk (next_id s) a in
        {| res := Ok b;
           final := {| world := w; next_id := fresh + next_id s |};
           emitted := [ev (Ok b)] |}
    | Raise x =>
        {| res := Raise x;
           final := {| world := w; next_id := next_id s |};
           emitted := [ev (Raise x)] |}
    end.

Definition GeneralizedOvercooked (layouts : list string) : M W Env :=
  extcall (ext_env X layouts)
    (fun id dims =>
       {| env_id := id; env_layouts := layouts;
          observation_space_shape0 := fst dims;
          action_space_n := snd dims |})
    1 (EvEnv layouts).

Definition PPOAgent (obs_dim act_dim : nat) (arch : string)
    (shaping decay : bool) : M W Agent :=
  extcall (ext_agent X obs_dim act_dim arch shaping decay)
    (fun id _ =>
       {| agent_id := id; agent_obs_dim := obs_dim;
          agent_act_dim := act_dim; arch_variant := arch;
          use_reward_shaping := shaping; use_decay := decay |})
    1 (EvAgent obs_dim act_dim arch shaping decay).

(** [agent.policy(tf.random.uniform((1, dim)))] and the same on
    [agent.value]. *)
Definition forward (net : network) (agent : Agent) (dim : nat) : M W unit :=
  extcall (ext_forward X net agent dim) (fun _ u => u) 0
    (EvForward net agent dim).

Definition load_weights (net : network) (agent : Agent) (path : string)
  : M W unit :=
  extcall (ext_load_weights X net agent path) (fun _ u => u) 0
    (EvLoad net agent path).

Definition evaluate_policy (agent : Agent) (env : Env)
    (greedy save_gif : bool) (gif_path : option string) : M W Q :=
  extcall (ext_evaluate_policy X agent env greedy save_gif gif_path)
    (fun _ reward => reward) 0
    (EvEval agent env greedy save_gif gif_path).

Definition print (l : line) : M W unit :=
  fun s => {| res := Ok tt; final := s; emitted := [EvPrint l] |}.

Definition os_path_exists (path : string) : M W bool :=
  fun s =>
    let b := ext_exists X path (world s) in
    {| res := Ok b; final := s; emitted := [EvExists path b] |}.

(** [display(Image(filename=path))]: the file is read, not changed.  The
    call can raise (the path is a directory, the file is not an image the
    front end accepts); whether it does is the collaborator's, and the
    exception propagates like any other. *)
Definition display_image (path : string) : M W unit :=
  fun s =>
    match ext_display X path (world s) with
    | Ok _ => {| res := Ok tt; final := s; emitted := [EvDisplay path] |}
    | Raise e =>
        {| res := Raise e; final := s; emitted := [EvDisplayError path e] |}
    end.

(** <<
    def show_gif(gif_path):
        if os.path.exists(gif_path):
            display(Image(filename=gif_path))
        else:
            print(f"GIF not found: {gif_path}")
    >> *)
Definition show_gif (gif_path : string) : M W unit :=
  b <- os_path_exists gif_path;;
  if b then display_image gif_path
  else print [Lit "GIF not found: "; Fmt "" (VStr gif_path)].

(** The statements every evaluation cell repeats for a layout (lines 61-73,
    137-149 and 203-211 of the notebook):
    <<
    env = GeneralizedOvercooked([layout])
    obs_dim = env.observation_space.shape[0]
    act_dim = env.action_space.n
    agent = PPOAgent(obs_dim, act_dim, arch_variant='deep',
                     use_reward_shaping=True, use_decay=True)
    agent.policy(tf.random.uniform((1, obs_dim)))
    agent.value(tf.random.uniform((1, obs_dim)))
    agent.policy.load_weights(policy_weights)
    agent.value.load_weights(value_weights)
    >> *)
Definition setup (layout policy_weights value_weights : string)
  : M W (Env * Agent) :=
  env <- GeneralizedOvercooked [layout];;
  let obs_dim := observation_space_shape0 env in
  let act_dim := action_space_n env in
  agent <- PPOAgent obs_dim act_dim "deep" true true;;
  forward PolicyNet agent obs_dim;;
  forward ValueNet agent obs_dim;;
  load_weights PolicyNet agent policy_weights;;
  load_weights ValueNet agent value_weights;;
  ret (env, agent).

(** ** Cell 0: the model trained on cramped_room only, greedy mode *)

Definition cell_cramped_room : M W (list greedy_result * Q * string) :=
  let results_greedy_cramped_room : list greedy_result := [] in
  ' (env, agent) <-
    setup "cramped_room" policy_weights_cramped_room
      value_weights_cramped_room;;
  let gif_path := "demo/cramped_room/cramped_room_eval_greedy.gif" in
  reward <- evaluate_policy agent env true true (Some gif_path);;
  let results_greedy_cramped_room :=
    results_greedy_cramped_room ++ [("cramped_room", reward, gif_path)] in
  print [Lit "Greedy reward on cramped_room: "; Fmt ".2f" (VNum (Num reward))];;
  ret (results_greedy_cramped_room, reward, gif_path).

(** The cell that follows reads the globals [reward] and [gif_path]. *)
Definition cell_cramped_room_show (reward : Q) (gif_path : string)
  : M W unit :=
  print [Lit (nl ++ "===== Greedy Evaluation Results =====")%string];;
  print [Fmt "<25" (VStr "Layout"); Lit " | "; Fmt ">8" (VStr "Reward")];;
  print [Lit (str_mul "-" 36)];;
  print [Fmt "<25" (VStr "cramped_room"); Lit " | ";
         Fmt ">8.2f" (VNum (Num reward))];;
  print [Lit (nl ++ "=== Greedy Evaluation GIFs ===")%string];;
  print [Lit "Layout: cramped_room"];;
  show_gif gif_path.

(** ** Cell 1: greedy evaluation of every layout *)

(** The body of [for layout in test_layouts:], lines 134-157. *)
Definition greedy_body (policy_weights value_weights : string)
    (results_greedy : list greedy_result) (layout : string)
  : M W (list greedy_result) :=
  print [Lit (nl ++ "[Greedy Eval] Layout: ")%string; Fmt "" (VStr layout)];;
  ' (env, agent) <- setup layout policy_weights value_weights;;
  let gif_path :=
    ("demo/generalization/" ++ layout ++ "_eval_greedy.gif")%string in
  reward <- evaluate_policy agent env true true (Some gif_path);;
  let results_greedy := results_greedy ++ [(layout, reward, gif_path)] in
  print [Lit "Greedy reward on "; Fmt "" (VStr layout); Lit ": ";
         Fmt ".2f" (VNum (Num reward))];;
  ret results_greedy.

Definition greedy_sweep (layouts : list string)
    (policy_weights value_weights : string) : M W (list greedy_result) :=
  for_in layouts (greedy_body policy_weights value_weights) [].

Definition cell_greedy : M W (list greedy_result) :=
  greedy_sweep test_layouts policy_weights value_weights.

(** The reporting cell, lines 167-176. *)
Definition greedy_gif_listing (results_greedy : list greedy_result)
  : M W unit :=
  for_in results_greedy
    (fun _ entry =>
       let '(layout, _, gif_path) := entry in
       print [Lit "Layout: cramped_room"];;
       show_gif gif_path)
    tt.

Definition cell_greedy_show (results_greedy : list greedy_result)
  : M W unit :=
  print [Lit (nl ++ "===== Greedy Evaluation Results =====")%string];;
  print [Fmt "<25" (VStr "Layout"); Lit " | "; Fmt ">8" (VStr "Reward")];;
  print [Lit (str_mul "-" 36)];;
  for_in results_greedy
    (fun _ entry =>
       let '(layout, reward, _) := entry in
       print [Fmt "<25" (VStr layout); Lit " | ";
              Fmt ">8.2f" (VNum (Num reward))])
    tt;;
  print [Lit (nl ++ "=== Greedy Evaluation GIFs ===")%string];;
  greedy_gif_listing results_greedy.

(** ** Cell 2: sampling evaluation of every layout *)

(** The path the first sampled run is saved under, line 216. *)
Definition sampling_gif_path (layout : string) : string :=
  ("demo/generalization/" ++ layout ++ "_eval_sampling.gif")%string.

(** The body of [for i in range(N_RUNS):], lines 215-220. *)
Definition sampling_run (agent : Agent) (env : Env) (layout : string)
    (rewards : list Q) (i : nat) : M W (list Q) :=
  let gif_path :=
    if (i =? 0)%nat then Some (sampling_gif_path layout) else None in
  reward <- evaluate_policy agent env false (i =? 0)%nat gif_path;;
  ret (rewards ++ [reward]).

(** The body of [for layout in test_layouts:], lines 200-224. *)
Definition sampling_body (n_runs : nat) (policy_weights value_weights : string)
    (results_sampling : list sampling_result) (layout : string)
  : M W (list sampling_result) :=
  print [Lit (nl ++ "[Sampling Eval] Layout: ")%string; Fmt "" (VStr layout)];;
  ' (env, agent) <- setup layout policy_weights value_weights;;
  rewards <- for_in (seq 0 n_runs) (sampling_run agent env layout) [];;
  let mean_reward := np_mean rewards in
  let std_reward := np_std rewards in
  let results_sampling :=
    results_sampling ++
    [(layout, mean_reward, std_reward,
      ("generalization/" ++ layout ++ "/eval_sampling.gif")%string)] in
  print [Lit "Sampling eval on "; Fmt "" (VStr layout); Lit ": mean=";
         Fmt ".2f" (VNum mean_reward); Lit " ± ";
         Fmt ".2f" (VNum std_reward)];;
  ret results_sampling.

Definition sampling_sweep (n_runs : nat) (layouts : list string)
    (policy_weights value_weights : string) : M W (list sampling_result) :=
  for_in layouts (sampling_body n_runs policy_weights value_weights) [].

Definition cell_sampling : M W (list sampling_result) :=
  sampling_sweep N_RUNS test_layouts policy_weights value_weights.

(** The reporting cell, lines 235-244. *)
Definition sampling_gif_listing (results_sampling : list sampling_result)
  : M W unit :=
  for_in results_sampling
    (fun _ entry =>
       let '(layout, _, _, gif_path) := entry in
       print [Lit "Layout: "; Fmt "" (VStr layout)];;
       show_gif gif_path)
    tt.

Definition cell_sampling_show (results_sampling : list sampling_result)
  : M W unit :=
  print [Lit (nl ++ "===== Sampling Evaluation Results =====")%string];;
  print [Fmt "<25" (VStr "Layout"); Lit " | "; Fmt ">8" (VStr "Mean");
         Lit " | "; Fmt ">8" (VStr "Std")];;
  print [Lit (str_mul "-" 46)];;
  for_in results_sampling
    (fun _ entry =>
       let '(layout, mean, std, _) := entry in
       print [Fmt "<25" (VStr layout); Lit " | "; Fmt ">8.2f" (VNum mean);
              Lit " | "; Fmt ">8.2f" (VNum std)])
    tt;;
  print [Lit (nl ++ "=== Sampling Evaluation GIFs ===")%string];;
  sampling_gif_listing results_sampling.

(** ** The cells in order *)

Definition notebook : M W unit :=
  ' (_, reward, gif_path) <- cell_cramped_room;;
  cell_cramped_room_show reward gif_path;;
  results_greedy <- cell_greedy;;
  cell_greedy_show results_greedy;;
  results_sampling <- cell_sampling;;
  cell_sampling_show results_sampling.

End Notebook.

(* ================================================================== *)
(** * Action selection of the episode runner *)

Module EpisodeRunner.

(** Modelled from the spec: the two policy modes of the episode runner
    (training/evaluate_selfplay.py is not among the sources); the notebook
    chooses between them with [greedy=True] and [greedy=False]. *)
Inductive mode : Type := GREEDY | SAMPLED.

(** Modelled from the spec: the scan behind the GREEDY rule of the episode
    runner (training/evaluate_selfplay.py is not among the sources).  It
    walks the distribution from index [i] on and keeps the best index seen,
    replacing it only for a strictly higher probability. *)
Fixpoint argmax_scan (best : nat) (best_p : Q) (i : nat) (dist : list Q)
  : nat :=
  match dist with
  | [] => best
  | p :: t =>
      if Qle_bool p best_p then argmax_scan best best_p (S i) t
      else argmax_scan i p (S i) t
  end.

(** Modelled from the spec: GREEDY action selection of the episode runner
    (not among the sources): the action with the highest probability in the
    distribution, ties broken by the lowest action index.  An empty
    distribution offers no action. *)
Definition greedy_action (dist : list Q) : option nat :=
  match dist with
  | [] => None
  | p :: t => Some (argmax_scan 0 p 1 t)
  end.

(** Modelled from the spec: SAMPLED action selection of the episode runner
    (not among the sources): one action drawn from the distribution with a
    pseudo-random draw [u], here by walking the cumulative distribution. *)
Fixpoint sampled_scan (u : Q) (i : nat) (dist : list Q) : nat :=
  match dist with
  | [] => i
  | [_] => i
  | p :: t => if Qle_bool p u then sampled_scan (u - p) (S i) t else i
  end.

(** Modelled from the spec: the action-selection policy of the episode
    runner (not among the sources), by mode; [u] is the pseudo-random draw
    made for the step. *)
Definition select_action (m : mode) (dist : list Q) (u : Q) : option nat :=
  match m with
  | GREEDY => greedy_action dist
  | SAMPLED =>
      match dist with
      | [] => None
      | _ => Some (sampled_scan u 0 dist)
      end
  end.

End EpisodeRunner.
Export EpisodeRunner.

(* ================================================================== *)
(** * Reading a record of calls *)

Module Trace.

Definition is_env (ev : event) : bool :=
  match ev with EvEnv _ _ => true | _ => false end.

Definition is_agent (ev : event) : bool :=
  match ev with EvAgent _ _ _ _ _ _ => true | _ => false end.

Definition is_eval (ev : event) : bool :=
  match ev with EvEval _ _ _ _ _ _ => true | _ => false end.

(** The exception a recorded call raised, if it did. *)
Definition raised (ev : event) : option exn :=
  match ev with
  | EvEnv _ (Raise e) => Some e
  | EvAgent _ _ _ _ _ (Raise e) => Some e
  | EvForward _ _ _ (Raise e) => Some e
  | EvLoad _ _ _ (Raise e) => Some e
  | EvEval _ _ _ _ _ (Raise e) => Some e
  | EvDisplayError _ e => Some e
  | _ => None
  end.

(** The total rewards the episode runs returned, in call order. *)
Fixpoint eval_rewards (t : list event) : list Q :=
  match t with
  | [] => []
  | EvEval _ _ _ _ _ (Ok r) :: t' => r :: eval_rewards t'
  | _ :: t' => eval_rewards t'
  end.

(** The layout lists environments were requested for, in call order. *)
Fixpoint env_requests (t : list event) : list (list string) :=
  match t with
  | [] => []
  | EvEnv layouts _ :: t' => layouts :: env_requests t'
  | _ :: t' => env_requests t'
  end.

(** The episode runs of one layout's sampling loop, from run index [i] on,
    given what each run returned or raised. *)
Fixpoint run_events (agent : Agent) (env : Env) (layout : string) (i : nat)
    (rs : list (result Q)) : list event :=
  match rs with
  | [] => []
  | r :: rs' =>
      EvEval agent env false (i =? 0)%nat
        (if (i =? 0)%nat then Some (sampling_gif_path layout) else None) r
      :: run_events agent env layout (S i) rs'
  end.

(** Every episode run in [t] uses an agent whose two networks were loaded
    successfully earlier in [t] or are listed in [lp] (policy) and [lv]
    (value). *)
Fixpoint evals_after_loads (lp lv : list Agent) (t : list event) : Prop :=
  match t with
  | [] => True
  | EvLoad PolicyNet a _ (Ok _) :: t' => evals_after_loads (a :: lp) lv t'
  | EvLoad ValueNet a _ (Ok _) :: t' => evals_after_loads lp (a :: lv) t'
  | EvEval a _ _ _ _ _ :: t' =>
      In a lp /\ In a lv /\ evals_after_loads lp lv t'
  | _ :: t' => evals_after_loads lp lv t'
  end.

(** What one call must satisfy, given the call before it: an agent is
    constructed right after an environment, from that environment's
    dimensions, and the agent object carries them; an episode run pairs an
    agent and an environment of equal dimensions. *)
Definition dims_ok_at (prev : option event) (ev : event) : Prop :=
  match ev with
  | EvAgent obs_dim act_dim _ _ _ r =>
      match prev with
      | Some (EvEnv _ (Ok env)) =>
          obs_dim = observation_space_shape0 env /\
          act_dim = action_space_n env /\
          match r with
          | Ok agent =>
              agent_obs_dim agent = observation_space_shape0 env /\
              agent_act_dim agent = action_space_n env
          | Raise _ => True
          end
      | _ => False
      end
  | EvEval agent env _ _ _ _ =>
      agent_obs_dim agent = observation_space_shape0 env /\
      agent_act_dim agent = action_space_n env
  | _ => True
  end.

Fixpoint dims_ok (prev : option event) (t : list event) : Prop :=
  match t with
  | [] => True
  | ev :: t' => dims_ok_at prev ev /\ dims_ok (Some ev) t'
  end.

(** The paths episode runs were asked to save a GIF under. *)
Fixpoint saved_gif_paths (t : list event) : list string :=
  match t with
  | [] => []
  | EvEval _ _ _ true (Some p) _ :: t' => p :: saved_gif_paths t'
  | _ :: t' => saved_gif_paths t'
  end.

(** The lines printed, in order. *)
Fixpoint printed (t : list event) : list line :=
  match t with
  | [] => []
  | EvPrint l :: t' => l :: printed t'
  | _ :: t' => printed t'
  end.

(** Every episode run comes after a successful load of the policy and of
    the value network of the agent it runs. *)
Definition loads_precede_evals (t : list event) : Prop :=
  forall pre a e g sg gp r post,
    t = pre ++ EvEval a e g sg gp r :: post ->
    (exists path, In (EvLoad PolicyNet a path (Ok tt)) pre) /\
    (exists path, In (EvLoad ValueNet a path (Ok tt)) pre).

(** A call that raised is the last call made, and its exception is the
    outcome. *)
Definition stops_at_raise {W A} (o : outcome W A) : Prop :=
  forall pre ev post e,
    emitted o = pre ++ ev :: post -> raised ev = Some e ->
    post = [] /\ res o = Raise e.

(** Every agent is constructed right after an environment, from that
    environment's two dimensions, and carries them; every episode run pairs
    an agent and an environment of equal dimensions. *)
Definition built_from_env (t : list event) : Prop :=
  (forall pre obs_dim act_dim arch shaping decay r post,
      t = pre ++ EvAgent obs_dim act_dim arch shaping decay r :: post ->
      exists pre' layouts env,
        pre = pre' ++ [EvEnv layouts (Ok env)] /\
        obs_dim = observation_space_shape0 env /\
        act_dim = action_space_n env /\
        forall agent, r = Ok agent ->
          agent_obs_dim agent = observation_space_shape0 env /\
          agent_act_dim agent = action_space_n env) /\
  (forall pre agent env g sg gp r post,
      t = pre ++ EvEval agent env g sg gp r :: post ->
      agent_obs_dim agent = observation_space_shape0 env /\
      agent_act_dim agent = action_space_n env).

End Trace.
Export Trace.

(* ================================================================== *)
(** * Two concrete outside worlds *)

Module Worlds.

Definition demo_rewards : list Q := [2; 2; 2; 2; 2; 2; 2; 2; 2; 20]%Q.

(** The outside world of the two examples: the number of episodes run so
    far and the GIF files written so far. *)
Definition demo_state : Type := nat * list string.

(** An episode run in the examples: episode number [k] returns the reward
    at position [k mod 10] of [demo_rewards], and writes the GIF when asked
    to with a path. *)
Definition demo_episode (save_gif : bool) (gif_path : option string)
    (w : demo_state) : result Q * demo_state :=
  let '(k, files) := w in
  (Ok (nth (k mod 10) demo_rewards 0%Q),
   (S k, match save_gif, gif_path with
         | true, Some p => p :: files
         | _, _ => files
         end)).

Definition demo_exists (path : string) (w : demo_state) : bool :=
  existsb (String.eqb path) (snd w).

(** Every call succeeds; environments have 96 observations and 6
    actions. *)
Definition demo_world : Externals demo_state := {|
  ext_env := fun _ w => (Ok (96, 6), w);
  ext_agent := fun _ _ _ _ _ w => (Ok tt, w);
  ext_forward := fun _ _ _ w => (Ok tt, w);
  ext_load_weights := fun _ _ _ w => (Ok tt, w);
  ext_evaluate_policy := fun _ _ _ save_gif gif_path => demo_episode save_gif gif_path;
  ext_exists := demo_exists;
  ext_display := fun _ _ => Ok tt
|}.

(** As [demo_world], but the environment of asymmetric_advantages has 62
    observations while the checkpoint was saved from a 96-observation
    network: loading it into an agent of another input size raises. *)
Definition mismatch_world : Externals demo_state := {|
  ext_env := fun layouts w =>
    match layouts with
    | [l] => if (l =? "asymmetric_advantages")%string
             then (Ok (62, 6), w) else (Ok (96, 6), w)
    | _ => (Ok (96, 6), w)
    end;
  ext_agent := fun _ _ _ _ _ w => (Ok tt, w);
  ext_forward := fun _ _ _ w => (Ok tt, w);
  ext_load_weights := fun _ agent _ w =>
    if (agent_obs_dim agent =? 96)%nat then (Ok tt, w)
    else (Raise "ValueError: shape mismatch", w);
  ext_evaluate_policy := fun _ _ _ save_gif gif_path => demo_episode save_gif gif_path;
  ext_exists := demo_exists;
  ext_display := fun _ _ => Ok tt
|}.

(** As [demo_world], but no checkpoint file is on disk: every weight load
    raises. *)
Definition missing_checkpoint_world : Externals demo_state := {|
  ext_env := fun _ w => (Ok (96, 6), w);
  ext_agent := fun _ _ _ _ _ w => (Ok tt, w);
  ext_forward := fun _ _ _ w => (Ok tt, w);
  ext_load_weights := fun _ _ _ w =>
    (Raise "FileNotFoundError: checkpoint", w);
  ext_evaluate_policy := fun _ _ _ save_gif gif_path => demo_episode save_gif gif_path;
  ext_exists := demo_exists;
  ext_display := fun _ _ => Ok tt
|}.

Definition start : state demo_state := {| world := (0, []); next_id := 0 |}.

(** The first environment and the first agent constructed from [start] in
    [demo_world], for cramped_room. *)
Definition first_env : Env := {|
  env_id := 0; env_layouts := ["cramped_room"];
  observation_space_shape0 := 96; action_space_n := 6
|}.

Definition first_agent : Agent := {|
  agent_id := 1; agent_obs_dim := 96; agent_act_dim := 6;
  arch_variant := "deep"; use_reward_shaping := true; use_decay := true
|}.

End Worlds.
Export Worlds.

(* ================================================================== *)
(** * Reading the reports and the episode runs *)

Module Report.

Definition greedy_reward (r : greedy_result) : Q :=
  let '(_, reward, _) := r in reward.

Definition greedy_recorded_gif (r : greedy_result) : string :=
  let '(_, _, gif_path) := r in gif_path.

(** The path the greedy run of a layout is saved under, line 152. *)
Definition greedy_gif_path (layout : string) : string :=
  ("demo/generalization/" ++ layout ++ "_eval_greedy.gif")%string.

(** The path the sampling cell records for a layout, line 223. *)
Definition sampling_recorded_path (layout : string) : string :=
  ("generalization/" ++ layout ++ "/eval_sampling.gif")%string.

(** The paths handed to [display], in order, whether the call returned
    or raised. *)
Fixpoint displayed (t : list event) : list string :=
  match t with
  | [] => []
  | EvDisplay p :: t' => p :: displayed t'
  | EvDisplayError p _ :: t' => p :: displayed t'
  | _ :: t' => displayed t'
  end.

(** The row of the greedy table for an entry, line 171. *)
Definition greedy_row (r : greedy_result) : line :=
  let '(layout, reward, _) := r in
  [Fmt "<25" (VStr layout); Lit " | "; Fmt ">8.2f" (VNum (Num reward))].

(** The row of the sampling table for an entry, line 239. *)
Definition sampling_row (r : sampling_result) : line :=
  let '(layout, mean, std, _) := r in
  [Fmt "<25" (VStr layout); Lit " | "; Fmt ">8.2f" (VNum mean);
   Lit " | "; Fmt ">8.2f" (VNum std)].

(** What [show_gif] prints for a path, given whether the file exists. *)
Definition gif_complaint (found : bool) (path : string) : list line :=
  if found then [] else [[Lit "GIF not found: "; Fmt "" (VStr path)]].

(** An episode run of the greedy sweep is greedy, saves a GIF, and does so
    under the greedy path of the layout its environment was built for. *)
Definition greedy_run_ok (ev : event) : Prop :=
  match ev with
  | EvEval _ env g sg gp _ =>
      exists layout,
        env_layouts env = [layout] /\ g = true /\ sg = true /\
        gp = Some (greedy_gif_path layout)
  | _ => True
  end.

(** An episode run of the sampling sweep samples, and either saves a GIF
    under the sampling path of the layout its environment was built for, or
    saves none and is given no path. *)
Definition sampling_run_ok (ev : event) : Prop :=
  match ev with
  | EvEval _ env g sg gp _ =>
      exists layout,
        env_layouts env = [layout] /\ g = false /\
        ((sg = true /\ gp = Some (sampling_gif_path layout)) \/
         (sg = false /\ gp = None))
  | _ => True
  end.

(** As [demo_world], but the episode runner raises from its fourth episode
    on. *)
Definition flaky_world : Externals demo_state := {|
  ext_env := fun _ w => (Ok (96, 6), w);
  ext_agent := fun _ _ _ _ _ w => (Ok tt, w);
  ext_forward := fun _ _ _ w => (Ok tt, w);
  ext_load_weights := fun _ _ _ w => (Ok tt, w);
  ext_evaluate_policy := fun _ _ _ save_gif gif_path w =>
    if fst w <? 3 then demo_episode save_gif gif_path w
    else (Raise "RuntimeError: environment crashed", w);
  ext_exists := demo_exists;
  ext_display := fun _ _ => Ok tt
|}.

(** The calls a reporting cell makes: printing, checking that a file
    exists, displaying an image. *)
Definition is_report_event (ev : event) : Prop :=
  match ev with
  | EvPrint _ | EvExists _ _ | EvDisplay _ | EvDisplayError _ _ => True
  | _ => False
  end.

(** How a sweep given the checkpoint paths [pw] and [vw] configures what
    it constructs: environments for a single layout, agents of the deep
    variant with reward shaping and decay, the policy network loaded from
    [pw] and the value network from [vw]. *)
Definition config_ok (pw vw : string) (ev : event) : Prop :=
  match ev with
  | EvEnv layouts _ => exists layout, layouts = [layout]
  | EvAgent _ _ arch shaping decay _ =>
      arch = "deep" /\ shaping = true /\ decay = true
  | EvLoad PolicyNet _ path _ => path = pw
  | EvLoad ValueNet _ path _ => path = vw
  | _ => True
  end.

(** What a forward pass or a weight load must follow directly: the policy
    network is called right after its agent was constructed, on an input of
    the agent's observation size; the value network right after that call
    returned; the policy weights are loaded right after the value call
    returned, and the value weights right after the policy load
    returned. *)
Definition warmup_at (prev : option event) (ev : event) : Prop :=
  match ev with
  | EvForward PolicyNet a dim _ =>
      dim = agent_obs_dim a /\
      exists o n arch sh dc, prev = Some (EvAgent o n arch sh dc (Ok a))
  | EvForward ValueNet a dim _ =>
      dim = agent_obs_dim a /\
      prev = Some (EvForward PolicyNet a dim (Ok tt))
  | EvLoad PolicyNet a _ _ =>
      prev = Some (EvForward ValueNet a (agent_obs_dim a) (Ok tt))
  | EvLoad ValueNet a _ _ =>
      exists path, prev = Some (EvLoad PolicyNet a path (Ok tt))
  | _ => True
  end.

Fixpoint warmup_ok (prev : option event) (t : list event) : Prop :=
  match t with
  | [] => True
  | ev :: t' => warmup_at prev ev /\ warmup_ok (Some ev) t'
  end.

(** Every weight load into a network of an agent comes after a forward
    pass of that network that returned, on an input of the agent's
    observation size. *)
Definition built_before_load (t : list event) : Prop :=
  forall pre net a path r post,
    t = pre ++ EvLoad net a path r :: post ->
    In (EvForward net a (agent_obs_dim a) (Ok tt)) pre.

(** As [demo_world], but a file is found at every path and none of them
    can be displayed. *)
Definition broken_gif_world : Externals demo_state := {|
  ext_env := fun _ w => (Ok (96, 6), w);
  ext_agent := fun _ _ _ _ _ w => (Ok tt, w);
  ext_forward := fun _ _ _ w => (Ok tt, w);
  ext_load_weights := fun _ _ _ w => (Ok tt, w);
  ext_evaluate_policy := fun _ _ _ save_gif gif_path => demo_episode save_gif gif_path;
  ext_exists := fun _ _ => true;
  ext_display := fun _ _ => Raise "ValueError: not an image"
|}.

(** The outcome [o] with its value, if any, passed through [f]. *)
Definition with_result {W A B} (f : A -> B) (o : outcome W A)
  : outcome W B :=
  match o with
  | {| res := Ok a; final := s; emitted := t |} =>
      {| res := Ok (f a); final := s; emitted := t |}
  | {| res := Raise e; final := s; emitted := t |} =>
      {| res := Raise e; final := s; emitted := t |}
  end.

End Report.
Export Report.

(* ================================================================== *)
(** * Facts about sequencing and loops *)

Section MonadFacts.

Context {W : Type}.

Lemma bind_emitted {A B} (m : M W A) (f : A -> M W B) (s : state W) :
  emitted (bind m f s) =
  emitted (m s) ++
  match res (m s) with
  | Ok a => emitted (f a (final (m s)))
  | Raise _ => []
  end.
Proof.
  unfold bind. destruct (m s) as [[a|e] s' t]; simpl.
  - now destruct (f a s').
  - now rewrite app_nil_r.
Qed.

Lemma bind_res {A B} (m : M W A) (f : A -> M W B) (s : state W) :
  res (bind m f s) =
  match res (m s) with
  | Ok a => res (f a (final (m s)))
  | Raise e => Raise e
  end.
Proof.
  unfold bind. destruct (m s) as [[a|e] s' t]; simpl; [|reflexivity].
  now destruct (f a s').
Qed.

Lemma bind_assoc {A B C} (m : M W A) (f : A -> M W B) (g : B -> M W C)
    (s : state W) :
  bind (bind m f) g s = bind m (fun a => bind (f a) g) s.
Proof.
  unfold bind. destruct (m s) as [[a|e] s' t]; simpl; [|reflexivity].
  destruct (f a s') as [[b|e] s'' t']; simpl; [|reflexivity].
  destruct (g b s'') as [r s3 t3]; simpl. now rewrite app_assoc.
Qed.

Lemma bind_ext {A B} (m : M W A) (f g : A -> M W B) (s : state W) :
  (forall a s', f a s' = g a s') -> bind m f s = bind m g s.
Proof.
  intros H. unfold bind. destruct (m s) as [[a|e] s' t]; [|reflexivity].
  now rewrite H.
Qed.

Lemma bind_ret_l {A B} (a : A) (f : A -> M W B) (s : state W) :
  bind (ret a) f s = f a s.
Proof. unfold bind, ret; simpl. now destruct (f a s). Qed.

(** A loop over [xs ++ ys] is the loop over [xs] followed by the loop over
    [ys]. *)
Lemma for_in_app {A S} (body : S -> A -> M W S) (xs ys : list A) :
  forall acc s,
    for_in (xs ++ ys) body acc s =
    bind (for_in xs body acc) (fun acc' => for_in ys body acc') s.
Proof.
  induction xs as [|x xs IH]; intros acc s; simpl.
  - now rewrite bind_ret_l.
  - rewrite bind_assoc. apply bind_ext. intros a s'. apply IH.
Qed.

(** A property of records of calls that holds of the empty record, of each
    pass through the body, and of concatenations, holds of the whole
    loop, however it ends. *)
Lemma for_in_emitted {A S} (P : list event -> Prop)
    (body : S -> A -> M W S) :
  P [] ->
  (forall t1 t2, P t1 -> P t2 -> P (t1 ++ t2)) ->
  (forall acc x s, P (emitted (body acc x s))) ->
  forall xs acc s, P (emitted (for_in xs body acc s)).
Proof.
  intros Hnil Happ Hbody. induction xs as [|x xs IH]; intros acc s; simpl.
  - exact Hnil.
  - rewrite bind_emitted. apply Happ; [apply Hbody|].
    destruct (res (body acc x s)); [apply IH | exact Hnil].
Qed.

(** On success, what the loop accumulated follows the elements it went
    over. *)
Lemma for_in_ok_proj {A S B} (proj : S -> list B) (key : A -> B)
    (body : S -> A -> M W S) :
  (forall acc x s acc',
      res (body acc x s) = Ok acc' -> proj acc' = proj acc ++ [key x]) ->
  forall xs acc s acc',
    res (for_in xs body acc s) = Ok acc' ->
    proj acc' = proj acc ++ map key xs.
Proof.
  intros Hbody. induction xs as [|x xs IH]; intros acc s acc'; simpl.
  - intros [= <-]. now rewrite app_nil_r.
  - rewrite bind_res. destruct (res (body acc x s)) eqn:E; [|discriminate].
    intros H. apply IH in H. rewrite H, (Hbody _ _ _ _ E).
    now rewrite <- app_assoc.
Qed.

(** On success, a count that adds up over concatenation and is [k] on each
    successful pass is [k] times the number of elements. *)
Lemma for_in_ok_sum {A S} (cnt : list event -> nat) (k : nat)
    (body : S -> A -> M W S) :
  cnt [] = 0 ->
  (forall t1 t2, cnt (t1 ++ t2) = cnt t1 + cnt t2) ->
  (forall acc x s acc',
      res (body acc x s) = Ok acc' -> cnt (emitted (body acc x s)) = k) ->
  forall xs acc s acc',
    res (for_in xs body acc s) = Ok acc' ->
    cnt (emitted (for_in xs body acc s)) = List.length xs * k.
Proof.
  intros Hnil Happ Hbody.
  induction xs as [|x xs IH]; intros acc s acc'; simpl.
  - auto.
  - rewrite bind_res, bind_emitted, Happ.
    destruct (res (body acc x s)) eqn:E; [|discriminate].
    intros H. now rewrite (Hbody _ _ _ _ E), (IH _ _ _ H).
Qed.

(** A pass that raises after a successful prefix stops the loop: what
    follows in the list is never reached. *)
Lemma for_in_stops {A S} (body : S -> A -> M W S) (xs ys : list A) (x : A) :
  forall acc s acc' e,
    res (for_in xs body acc s) = Ok acc' ->
    res (body acc' x (final (for_in xs body acc s))) = Raise e ->
    res (for_in (xs ++ x :: ys) body acc s) = Raise e /\
    emitted (for_in (xs ++ x :: ys) body acc s) =
      emitted (for_in xs body acc s) ++
      emitted (body acc' x (final (for_in xs body acc s))).
Proof.
  intros acc s acc' e Hok Hraise.
  rewrite for_in_app, bind_res, bind_emitted, Hok. cbn [for_in].
  rewrite bind_res, bind_emitted, Hraise. now rewrite app_nil_r.
Qed.

Lemma stops_at_raise_ret {A} (a : A) (s : state W) :
  stops_at_raise (ret a s).
Proof. intros pre ev post e H. destruct pre; discriminate. Qed.

Lemma stops_at_raise_bind {A B} (m : M W A) (f : A -> M W B) (s : state W) :
  stops_at_raise (m s) ->
  (forall a s', stops_at_raise (f a s')) ->
  stops_at_raise (bind m f s).
Proof.
  intros Hm Hf pre ev post e. rewrite bind_res, bind_emitted.
  destruct (res (m s)) as [a|e0] eqn:E.
  - intros H Hev. apply app_eq_app in H.
    destruct H as [l [[H1 H2]|[H1 H2]]].
    + destruct l as [|x l].
      * rewrite app_nil_r in H1. simpl in H2. subst pre.
        apply (Hf a (final (m s)) [] ev post e); auto.
      * injection H2 as <- H2.
        destruct (Hm _ _ _ _ H1 Hev) as [_ Habs]. congruence.
    + subst pre. apply (Hf a (final (m s)) l ev post e); auto.
  - rewrite app_nil_r. intros H Hev.
    destruct (Hm _ _ _ _ H Hev) as [-> He]. rewrite E in He.
    injection He as ->. auto.
Qed.

Lemma stops_at_raise_for_in {A S} (body : S -> A -> M W S) :
  (forall acc x s, stops_at_raise (body acc x s)) ->
  forall xs acc s, stops_at_raise (for_in xs body acc s).
Proof.
  intros Hbody. induction xs as [|x xs IH]; intros acc s; simpl.
  - apply stops_at_raise_ret.
  - apply stops_at_raise_bind; auto.
Qed.

End MonadFacts.

(* ================================================================== *)
(** * Facts about records of calls *)

Section TraceFacts.

Lemma env_requests_app (t1 t2 : list event) :
  env_requests (t1 ++ t2) = env_requests t1 ++ env_requests t2.
Proof.
  induction t1 as [|ev t1 IH]; [reflexivity|].
  destruct ev; simpl; now rewrite ?IH.
Qed.

Lemma run_events_length agent env layout i rs :
  List.length (run_events agent env layout i rs) = List.length rs.
Proof.
  revert i. induction rs as [|r rs IH]; intros i; simpl; [reflexivity|].
  now rewrite IH.
Qed.

Lemma run_events_app agent env layout i rs1 rs2 :
  run_events agent env layout i (rs1 ++ rs2) =
  run_events agent env layout i rs1 ++
  run_events agent env layout (List.length rs1 + i) rs2.
Proof.
  revert i. induction rs1 as [|r rs1 IH]; intros i; simpl; [reflexivity|].
  rewrite IH. now rewrite Nat.add_succ_r.
Qed.

Lemma run_events_evals agent env layout i rs :
  filter is_eval (run_events agent env layout i rs) =
  run_events agent env layout i rs.
Proof.
  revert i. induction rs as [|r rs IH]; intros i; simpl; [reflexivity|].
  now rewrite IH.
Qed.

Lemma run_events_no_env agent env layout i rs :
  filter is_env (run_events agent env layout i rs) = [] /\
  filter is_agent (run_events agent env layout i rs) = [].
Proof.
  revert i. induction rs as [|r rs IH]; intros i; simpl; [auto|]. apply IH.
Qed.

Lemma run_events_rewards agent env layout i rewards :
  eval_rewards (run_events agent env layout i (map Ok rewards)) = rewards.
Proof.
  revert i. induction rewards as [|r rs IH]; intros i; simpl; [reflexivity|].
  now rewrite IH.
Qed.

(** The run at position [k] of a sampling loop started at index [i]. *)
Lemma run_events_nth agent env layout rs :
  forall i k ev,
    nth_error (run_events agent env layout i rs) k = Some ev ->
    exists r,
      ev = EvEval agent env false (i + k =? 0)
             (if i + k =? 0 then Some (sampling_gif_path layout) else None) r.
Proof.
  induction rs as [|r rs IH]; intros i k ev; simpl.
  - destruct k; discriminate.
  - destruct k as [|k]; simpl.
    + intros [= <-]. exists r. now rewrite Nat.add_0_r.
    + intros H. apply IH in H. destruct H as [r' ->]. exists r'.
      now rewrite Nat.add_succ_r.
Qed.

Lemma incl_cons_cons {A} (a : A) (l l' : list A) :
  incl l l' -> incl (a :: l) (a :: l').
Proof. intros H. apply incl_cons; [apply in_eq | now apply incl_tl]. Qed.

Lemma evals_after_loads_mono (t : list event) :
  forall lp lv lp' lv',
    incl lp lp' -> incl lv lv' ->
    evals_after_loads lp lv t -> evals_after_loads lp' lv' t.
Proof.
  induction t as [|ev t IH]; intros lp lv lp' lv' Hp Hv; simpl; [auto|].
  destruct ev; try (apply IH; assumption).
  - destruct net, r; apply IH; auto using incl_cons_cons.
  - intros (H1 & H2 & H3). repeat split; auto. eapply IH; eauto.
Qed.

Lemma evals_after_loads_app (t1 t2 : list event) :
  forall lp lv,
    evals_after_loads lp lv t1 -> evals_after_loads [] [] t2 ->
    evals_after_loads lp lv (t1 ++ t2).
Proof.
  induction t1 as [|ev t1 IH]; intros lp lv H1 H2; simpl in *.
  - eapply evals_after_loads_mono; eauto; intros x [].
  - destruct ev; auto.
    + destruct net, r; auto.
    + destruct H1 as (Hp & Hv & H1). auto.
Qed.

(** The scanning predicate, read at one episode run of the record. *)
Lemma evals_after_loads_split (pre : list event) :
  forall lp lv t a e g sg gp r post,
    evals_after_loads lp lv t ->
    t = pre ++ EvEval a e g sg gp r :: post ->
    (In a lp \/ exists path, In (EvLoad PolicyNet a path (Ok tt)) pre) /\
    (In a lv \/ exists path, In (EvLoad ValueNet a path (Ok tt)) pre).
Proof.
  induction pre as [|ev pre IH]; intros lp lv t a e g sg gp r post H ->;
    simpl in H.
  - destruct H as (Hp & Hv & _). auto.
  - assert (Hgen : forall lp' lv',
               evals_after_loads lp' lv' (pre ++ EvEval a e g sg gp r :: post) ->
               (forall x, In x lp' -> In x lp \/
                          exists path, ev = EvLoad PolicyNet x path (Ok tt)) ->
               (forall x, In x lv' -> In x lv \/
                          exists path, ev = EvLoad ValueNet x path (Ok tt)) ->
               (In a lp \/ exists path,
                   In (EvLoad PolicyNet a path (Ok tt)) (ev :: pre)) /\
               (In a lv \/ exists path,
                   In (EvLoad ValueNet a path (Ok tt)) (ev :: pre))).
    { intros lp' lv' H' Hp Hv.
      destruct (IH lp' lv' _ a e g sg gp r post H' eq_refl) as [[Hp'|Hp'] [Hv'|Hv']].
      - split.
        + destruct (Hp _ Hp') as [?|[p ->]]; [auto|right; exists p; apply in_eq].
        + destruct (Hv _ Hv') as [?|[p ->]]; [auto|right; exists p; apply in_eq].
      - split.
        + destruct (Hp _ Hp') as [?|[p ->]]; [auto|right; exists p; apply in_eq].
        + destruct Hv' as [p Hv']. right; exists p; now apply in_cons.
      - split.
        + destruct Hp' as [p Hp']. right; exists p; now apply in_cons.
        + destruct (Hv _ Hv') as [?|[p ->]]; [auto|right; exists p; apply in_eq].
      - split.
        + destruct Hp' as [p Hp']. right; exists p; now apply in_cons.
        + destruct Hv' as [p Hv']. right; exists p; now apply in_cons. }
    destruct ev; try (apply (Hgen lp lv H); auto).
    + destruct net, r0 as [[]|]; try (apply (Hgen lp lv H); auto).
      * apply (Hgen _ _ H); [|auto].
        intros x [<-|Hx]; [right; eauto | auto].
      * apply (Hgen _ _ H); [auto|].
        intros x [<-|Hx]; [right; eauto | auto].
    + destruct H as (_ & _ & H). apply (Hgen lp lv H); auto.
Qed.

Lemma dims_ok_any_prev (t : list event) (prev : option event) :
  dims_ok None t -> dims_ok prev t.
Proof.
  destruct t as [|ev t]; simpl; [auto|]. intros [H1 H2]. split; [|exact H2].
  destruct ev; simpl in *; auto. contradiction.
Qed.

Lemma dims_ok_app (t1 t2 : list event) :
  forall prev, dims_ok prev t1 -> dims_ok None t2 -> dims_ok prev (t1 ++ t2).
Proof.
  induction t1 as [|ev t1 IH]; intros prev H1 H2; simpl in *.
  - now apply dims_ok_any_prev.
  - destruct H1 as [H H1]. split; auto.
Qed.

Lemma last_cons_default {A} (l : list A) :
  forall a d d', last (a :: l) d = last (a :: l) d'.
Proof.
  induction l as [|b l IH]; intros a d d'; [reflexivity|].
  change (last (b :: l) d = last (b :: l) d'). apply IH.
Qed.

(** The scanning predicate, read at one call of the record. *)
Lemma dims_ok_split (pre : list event) :
  forall prev t ev post,
    dims_ok prev t -> t = pre ++ ev :: post ->
    dims_ok_at (last (map Some pre) prev) ev.
Proof.
  induction pre as [|x pre IH]; intros prev t ev post H ->; simpl in H.
  - apply H.
  - destruct H as [_ H]. specialize (IH _ _ ev post H eq_refl).
    destruct pre as [|y pre]; [exact IH|].
    change (map Some (x :: y :: pre)) with (Some x :: map Some (y :: pre)).
    change (last (Some x :: map Some (y :: pre)) prev)
      with (last (map Some (y :: pre)) prev).
    simpl map in *. now rewrite (last_cons_default _ _ prev (Some x)).
Qed.

Lemma dims_ok_built_from_env (t : list event) :
  dims_ok None t -> built_from_env t.
Proof.
  intros H. split.
  - intros pre o a arch sh dc r post E.
    pose proof (dims_ok_split pre None t _ post H E) as D. simpl in D.
    destruct (last (map Some pre) None) as [p|] eqn:L; [|contradiction].
    destruct p; try contradiction. destruct r0 as [env|]; [|contradiction].
    destruct pre as [|x pre] using rev_ind; [discriminate|].
    rewrite map_app in L. cbn [map] in L. rewrite last_last in L.
    injection L as ->.
    exists pre, layouts, env. destruct D as (-> & -> & D).
    split; [reflexivity|]. split; [reflexivity|]. split; [reflexivity|].
    intros agent ->. exact D.
  - intros pre agent env g sg gp r post E.
    exact (dims_ok_split pre None t _ post H E).
Qed.

Lemma evals_after_loads_precede (t : list event) :
  evals_after_loads [] [] t -> loads_precede_evals t.
Proof.
  intros H pre a e g sg gp r post E.
  destruct (evals_after_loads_split pre [] [] t a e g sg gp r post H E)
    as [[[]|Hp] [[]|Hv]]. auto.
Qed.

Lemma run_events_after_loads agent env layout rs :
  forall i lp lv tail,
    In agent lp -> In agent lv -> evals_after_loads lp lv tail ->
    evals_after_loads lp lv (run_events agent env layout i rs ++ tail).
Proof.
  induction rs as [|r rs IH]; intros i lp lv tail Hp Hv Ht; simpl; auto.
Qed.

Lemma run_events_dims_ok agent env layout rs :
  forall i prev tail,
    agent_obs_dim agent = observation_space_shape0 env ->
    agent_act_dim agent = action_space_n env ->
    (forall p, dims_ok p tail) ->
    dims_ok prev (run_events agent env layout i rs ++ tail).
Proof.
  induction rs as [|r rs IH]; intros i prev tail Ho Ha Ht; simpl; auto.
Qed.

Lemma run_events_env_requests agent env layout rs :
  forall i, env_requests (run_events agent env layout i rs) = [].
Proof. induction rs as [|r rs IH]; intros i; simpl; auto. Qed.

End TraceFacts.

(* ================================================================== *)
(** * Facts about the cells *)

Section CellFacts.

Context {W : Type} (X : Externals W).

(** Runs a straight-line piece of the notebook on every outcome of its
    calls. *)
Ltac exec :=
  unfold setup, GeneralizedOvercooked, PPOAgent, forward, load_weights,
    evaluate_policy, print, bind, ret, extcall;
  cbn;
  repeat match goal with
         | |- context [match ?c with pair _ _ => _ end] =>
             destruct c as [[?|?] ?]; cbn
         end.

(** ** The shared set-up *)

(** A set-up that completes made exactly six calls, all on the one
    environment and the one agent it returns. *)
Lemma setup_ok layout pw vw s env agent :
  res (setup X layout pw vw s) = Ok (env, agent) ->
  env_id env = next_id s /\
  env_layouts env = [layout] /\
  agent = {| agent_id := S (next_id s);
             agent_obs_dim := observation_space_shape0 env;
             agent_act_dim := action_space_n env;
             arch_variant := "deep";
             use_reward_shaping := true;
             use_decay := true |} /\
  emitted (setup X layout pw vw s) =
    [EvEnv [layout] (Ok env);
     EvAgent (observation_space_shape0 env) (action_space_n env)
       "deep" true true (Ok agent);
     EvForward PolicyNet agent (observation_space_shape0 env) (Ok tt);
     EvForward ValueNet agent (observation_space_shape0 env) (Ok tt);
     EvLoad PolicyNet agent pw (Ok tt);
     EvLoad ValueNet agent vw (Ok tt)].
Proof.
  exec; try discriminate.
  intros [= <- <-]. repeat match goal with u : unit |- _ => destruct u end.
  auto.
Qed.

(** A set-up that raises ran no episode, and its last call is the one that
    raised. *)
Lemma setup_raise layout pw vw s e :
  res (setup X layout pw vw s) = Raise e ->
  exists pre ev,
    emitted (setup X layout pw vw s) = pre ++ [ev] /\ raised ev = Some e.
Proof.
  exec; try discriminate; intros [= <-];
    match goal with
    | |- exists pre ev, ?t = _ /\ _ =>
        exists (removelast t), (last t (EvDisplay ""))
    end; split; reflexivity.
Qed.

Lemma setup_eval_free layout pw vw s :
  filter is_eval (emitted (setup X layout pw vw s)) = [].
Proof. exec; reflexivity. Qed.

Lemma setup_evals_after_loads layout pw vw s lp lv :
  evals_after_loads lp lv (emitted (setup X layout pw vw s)).
Proof.
  exec; repeat match goal with u : unit |- _ => destruct u end; exact I.
Qed.

Lemma setup_dims_ok layout pw vw s prev :
  dims_ok prev (emitted (setup X layout pw vw s)).
Proof. exec; repeat split. Qed.

Lemma setup_env_requests layout pw vw s :
  env_requests (emitted (setup X layout pw vw s)) = [[layout]].
Proof. exec; reflexivity. Qed.

(** ** The greedy body *)

(** One pass of the greedy loop, on every outcome: either the set-up raised
    and nothing else was called, or the set-up was followed by exactly one
    greedy episode run with frame capture on the pair it returned. *)
Lemma greedy_body_run pw vw results layout s :
  let o := greedy_body X pw vw results layout s in
  let su := setup X layout pw vw s in
  let gif := ("demo/generalization/" ++ layout ++ "_eval_greedy.gif")%string in
  let hdr := EvPrint [Lit (nl ++ "[Greedy Eval] Layout: ")%string;
                      Fmt "" (VStr layout)] in
  match res su with
  | Raise e => res o = Raise e /\ emitted o = hdr :: emitted su
  | Ok (env, agent) =>
      (exists reward,
          res o = Ok (results ++ [(layout, reward, gif)]) /\
          emitted o =
            hdr :: emitted su ++
            [EvEval agent env true true (Some gif) (Ok reward);
             EvPrint [Lit "Greedy reward on "; Fmt "" (VStr layout);
                      Lit ": "; Fmt ".2f" (VNum (Num reward))]]) \/
      (exists e,
          res o = Raise e /\
          emitted o =
            hdr :: emitted su ++
            [EvEval agent env true true (Some gif) (Raise e)])
  end.
Proof.
  cbv zeta. unfold greedy_body.
  rewrite bind_res, bind_emitted. cbn [print res final emitted app].
  rewrite bind_res, bind_emitted.
  destruct (res (setup X layout pw vw s)) as [[env agent]|e].
  - generalize (final (setup X layout pw vw s))
               (emitted (setup X layout pw vw s)); intros s' t.
    exec; [left|right]; eexists; split; reflexivity.
  - now rewrite app_nil_r.
Qed.

(** ** The sampling loop *)

Lemma sampling_run_run agent env layout rewards i s :
  sampling_run X agent env layout rewards i s =
  let gp := if i =? 0 then Some (sampling_gif_path layout) else None in
  match ext_evaluate_policy X agent env false (i =? 0) gp (world s) with
  | (Ok reward, w) =>
      {| res := Ok (rewards ++ [reward]);
         final := {| world := w; next_id := next_id s |};
         emitted := [EvEval agent env false (i =? 0) gp (Ok reward)] |}
  | (Raise e, w) =>
      {| res := Raise e;
         final := {| world := w; next_id := next_id s |};
         emitted := [EvEval agent env false (i =? 0) gp (Raise e)] |}
  end.
Proof.
  unfold sampling_run, evaluate_policy, bind, ret, extcall. cbn.
  destruct (ext_evaluate_policy _ _ _ _ _ _ _) as [[r|e] w]; reflexivity.
Qed.

(** The loop over the run indices [i, i+1, ..., i+n-1], on every outcome:
    either all [n] runs returned, or the loop stopped at the first run that
    raised. *)
Lemma runs_run agent env layout :
  forall n i acc s,
    let o := for_in (seq i n) (sampling_run X agent env layout) acc s in
    (exists rewards,
        List.length rewards = n /\ res o = Ok (acc ++ rewards) /\
        emitted o = run_events agent env layout i (map Ok rewards)) \/
    (exists rewards e,
        List.length rewards < n /\ res o = Raise e /\
        emitted o =
          run_events agent env layout i (map Ok rewards ++ [Raise e])).
Proof.
  induction n as [|n IH]; intros i acc s; cbv zeta.
  - left. exists []. simpl. now rewrite app_nil_r.
  - change (seq i (S n)) with (i :: seq (S i) n).
    cbn [for_in]. rewrite bind_res, bind_emitted, sampling_run_run.
    cbv zeta.
    destruct (ext_evaluate_policy _ _ _ _ _ _ _) as [[r|e] w];
      cbn [res final emitted].
    + destruct (IH (S i) (acc ++ [r]) {| world := w; next_id := next_id s |})
        as [(rs & Hlen & Hres & Hem) | (rs & e & Hlen & Hres & Hem)].
      * left. exists (r :: rs). simpl. rewrite Hres, Hem, <- app_assoc.
        repeat split; auto.
      * right. exists (r :: rs), e. simpl. rewrite Hres, Hem.
        repeat split; auto. lia.
    + right. exists [], e. simpl. repeat split; auto. lia.
Qed.

(** ** The sampling body *)

(** One pass of the sampling loop over the layouts, on every outcome. *)
Lemma sampling_body_run n_runs pw vw results layout s :
  let o := sampling_body X n_runs pw vw results layout s in
  let su := setup X layout pw vw s in
  let hdr := EvPrint [Lit (nl ++ "[Sampling Eval] Layout: ")%string;
                      Fmt "" (VStr layout)] in
  match res su with
  | Raise e => res o = Raise e /\ emitted o = hdr :: emitted su
  | Ok (env, agent) =>
      (exists rewards,
          List.length rewards = n_runs /\
          res o =
            Ok (results ++
                [(layout, np_mean rewards, np_std rewards,
                  ("generalization/" ++ layout ++ "/eval_sampling.gif")%string)]) /\
          emitted o =
            hdr :: emitted su ++
            run_events agent env layout 0 (map Ok rewards) ++
            [EvPrint [Lit "Sampling eval on "; Fmt "" (VStr layout);
                      Lit ": mean="; Fmt ".2f" (VNum (np_mean rewards));
                      Lit " ± "; Fmt ".2f" (VNum (np_std rewards))]]) \/
      (exists rewards e,
          List.length rewards < n_runs /\
          res o = Raise e /\
          emitted o =
            hdr :: emitted su ++
            run_events agent env layout 0 (map Ok rewards ++ [Raise e]))
  end.
Proof.
  cbv zeta. unfold sampling_body.
  rewrite bind_res, bind_emitted. cbn [print res final emitted app].
  rewrite bind_res, bind_emitted.
  destruct (res (setup X layout pw vw s)) as [[env agent]|e].
  - generalize (final (setup X layout pw vw s)); intros s'.
    rewrite bind_res, bind_emitted.
    destruct (runs_run agent env layout n_runs 0 [] s')
      as [(rs & Hlen & Hres & Hem) | (rs & e & Hlen & Hres & Hem)];
      cbv zeta in Hres, Hem; rewrite Hres, Hem.
    + left. exists rs. cbn. auto.
    + right. exists rs, e. rewrite app_nil_r. auto.
  - now rewrite app_nil_r.
Qed.

(** ** Cell 0 *)

Lemma cell_cramped_room_run s :
  let o := cell_cramped_room X s in
  let su := setup X "cramped_room" policy_weights_cramped_room
              value_weights_cramped_room s in
  let gif := "demo/cramped_room/cramped_room_eval_greedy.gif" in
  match res su with
  | Raise e => res o = Raise e /\ emitted o = emitted su
  | Ok (env, agent) =>
      (exists reward,
          res o = Ok ([("cramped_room", reward, gif)], reward, gif) /\
          emitted o =
            emitted su ++
            [EvEval agent env true true (Some gif) (Ok reward);
             EvPrint [Lit "Greedy reward on cramped_room: ";
                      Fmt ".2f" (VNum (Num reward))]]) \/
      (exists e,
          res o = Raise e /\
          emitted o =
            emitted su ++ [EvEval agent env true true (Some gif) (Raise e)])
  end.
Proof.
  cbv zeta. unfold cell_cramped_room.
  rewrite bind_res, bind_emitted.
  destruct (res (setup X _ _ _ s)) as [[env agent]|e].
  - generalize (final (setup X "cramped_room" policy_weights_cramped_room
                         value_weights_cramped_room s))
               (emitted (setup X "cramped_room" policy_weights_cramped_room
                           value_weights_cramped_room s)); intros s' t.
    exec; [left|right]; eexists; split; reflexivity.
  - now rewrite app_nil_r.
Qed.

(** ** Exceptions stop a cell *)

Ltac one_call :=
  let pre := fresh "pre" in
  let H := fresh "H" in
  let Hev := fresh "Hev" in
  intros pre ? ? ? H Hev;
  destruct pre as [|? [|? ?]]; try discriminate H;
  injection H as <- <-; cbn in Hev;
  first [discriminate Hev | injection Hev as <-; auto].

Lemma stops_GeneralizedOvercooked layouts s :
  stops_at_raise (GeneralizedOvercooked X layouts s).
Proof.
  unfold GeneralizedOvercooked, extcall.
  destruct (ext_env X layouts (world s)) as [[?|?] ?]; cbn; one_call.
Qed.

Lemma stops_PPOAgent o a arch sh dc s :
  stops_at_raise (PPOAgent X o a arch sh dc s).
Proof.
  unfold PPOAgent, extcall.
  destruct (ext_agent X o a arch sh dc (world s)) as [[?|?] ?]; cbn; one_call.
Qed.

Lemma stops_forward net agent dim s :
  stops_at_raise (forward X net agent dim s).
Proof.
  unfold forward, extcall.
  destruct (ext_forward X net agent dim (world s)) as [[?|?] ?]; cbn; one_call.
Qed.

Lemma stops_load_weights net agent path s :
  stops_at_raise (load_weights X net agent path s).
Proof.
  unfold load_weights, extcall.
  destruct (ext_load_weights X net agent path (world s)) as [[?|?] ?]; cbn;
    one_call.
Qed.

Lemma stops_evaluate_policy agent env g sg gp s :
  stops_at_raise (evaluate_policy X agent env g sg gp s).
Proof.
  unfold evaluate_policy, extcall.
  destruct (ext_evaluate_policy X agent env g sg gp (world s)) as [[?|?] ?];
    cbn; one_call.
Qed.

Lemma stops_print l (s : state W) : stops_at_raise (@print W l s).
Proof. unfold print. one_call. Qed.

Ltac stops :=
  repeat first
    [ apply stops_at_raise_ret
    | apply stops_GeneralizedOvercooked
    | apply stops_PPOAgent
    | apply stops_forward
    | apply stops_load_weights
    | apply stops_evaluate_policy
    | apply stops_print
    | apply stops_at_raise_for_in; intros ? ? ?
    | apply stops_at_raise_bind; [|intros ? ?]
    | match goal with
      | |- context [match ?x with pair _ _ => _ end] => destruct x
      end ].

Lemma stops_setup layout pw vw s : stops_at_raise (setup X layout pw vw s).
Proof. unfold setup. stops. Qed.

Lemma stops_cell_cramped_room s : stops_at_raise (cell_cramped_room X s).
Proof. unfold cell_cramped_room. stops. Qed.

Lemma stops_greedy_sweep layouts pw vw s :
  stops_at_raise (greedy_sweep X layouts pw vw s).
Proof.
  unfold greedy_sweep. apply stops_at_raise_for_in. intros acc x s'.
  unfold greedy_body. stops.
Qed.

Lemma stops_sampling_body n pw vw results layout s :
  stops_at_raise (sampling_body X n pw vw results layout s).
Proof.
  unfold sampling_body. stops.
Qed.

Lemma stops_sampling_sweep n layouts pw vw s :
  stops_at_raise (sampling_sweep X n layouts pw vw s).
Proof.
  unfold sampling_sweep. apply stops_at_raise_for_in. intros acc x s'.
  apply stops_sampling_body.
Qed.

(** ** What holds of every pass, however it ends *)

Lemma cell_cramped_room_invariants s :
  evals_after_loads [] [] (emitted (cell_cramped_room X s)) /\
  dims_ok None (emitted (cell_cramped_room X s)).
Proof.
  pose proof (cell_cramped_room_run s) as H. cbv zeta in H.
  destruct (res (setup X _ _ _ s)) as [[env agent]|e] eqn:Hsu.
  - destruct (setup_ok _ _ _ _ _ _ Hsu) as (_ & _ & Hag & Hem).
    destruct H as [(r & _ & ->)|(e & _ & ->)]; rewrite Hem, Hag; simpl;
      intuition auto.
  - destruct H as [_ ->]. split;
      [apply setup_evals_after_loads | apply setup_dims_ok].
Qed.

Lemma greedy_body_invariants pw vw results layout s :
  let t := emitted (greedy_body X pw vw results layout s) in
  evals_after_loads [] [] t /\ dims_ok None t /\
  env_requests t = [[layout]] /\
  Forall (fun ev => match ev with
                    | EvEval _ _ g _ _ _ => g = true
                    | _ => True
                    end) t.
Proof.
  cbv zeta. pose proof (greedy_body_run pw vw results layout s) as H.
  cbv zeta in H.
  destruct (res (setup X _ _ _ s)) as [[env agent]|e] eqn:Hsu.
  - destruct (setup_ok _ _ _ _ _ _ Hsu) as (_ & _ & Hag & Hem).
    destruct H as [(r & _ & ->)|(e & _ & ->)]; rewrite Hem, Hag; simpl;
      repeat split; auto; repeat constructor.
  - destruct H as [_ ->]. simpl. repeat split.
    + apply setup_evals_after_loads.
    + apply setup_dims_ok.
    + apply setup_env_requests.
    + constructor; [exact I|]. apply Forall_forall. intros ev Hin.
      destruct ev; auto.
      assert (Hf : In (EvEval a e0 greedy save_gif gif_path r)
                     (filter is_eval (emitted (setup X layout pw vw s))))
        by (apply filter_In; auto).
      rewrite setup_eval_free in Hf. destruct Hf.
Qed.

Lemma sampling_body_invariants n pw vw results layout s :
  let t := emitted (sampling_body X n pw vw results layout s) in
  evals_after_loads [] [] t /\ dims_ok None t /\
  env_requests t = [[layout]].
Proof.
  cbv zeta. pose proof (sampling_body_run n pw vw results layout s) as H.
  cbv zeta in H.
  destruct (res (setup X _ _ _ s)) as [[env agent]|e] eqn:Hsu.
  - destruct (setup_ok _ _ _ _ _ _ Hsu) as (_ & _ & Hag & Hem).
    destruct H as [(rs & _ & _ & ->)|(rs & e & _ & _ & ->)]; rewrite Hem;
      [|rewrite <- (app_nil_r (run_events _ _ _ _ _))];
      subst agent; cbn [app evals_after_loads dims_ok env_requests];
      repeat split; simpl; auto;
      try (apply run_events_after_loads; simpl; now auto);
      try (apply run_events_dims_ok; simpl; now auto);
      try (now rewrite env_requests_app, run_events_env_requests).
  - destruct H as [_ ->]. simpl. repeat split.
    + apply setup_evals_after_loads.
    + apply setup_dims_ok.
    + apply setup_env_requests.
Qed.

(** ** The sweeps *)

Lemma greedy_sweep_invariants layouts pw vw s :
  let t := emitted (greedy_sweep X layouts pw vw s) in
  evals_after_loads [] [] t /\ dims_ok None t /\
  Forall (fun ev => match ev with
                    | EvEval _ _ g _ _ _ => g = true
                    | _ => True
                    end) t.
Proof.
  cbv zeta. unfold greedy_sweep. repeat split.
  - apply (for_in_emitted (evals_after_loads [] [])); [exact I | |].
    + intros t1 t2. apply evals_after_loads_app.
    + intros. apply greedy_body_invariants.
  - apply (for_in_emitted (dims_ok None)); [exact I | |].
    + intros t1 t2. apply dims_ok_app.
    + intros. apply greedy_body_invariants.
  - apply (for_in_emitted (Forall _)); [constructor | |].
    + intros t1 t2 H1 H2. apply Forall_app; auto.
    + intros. apply greedy_body_invariants.
Qed.

Lemma sampling_sweep_invariants n layouts pw vw s :
  let t := emitted (sampling_sweep X n layouts pw vw s) in
  evals_after_loads [] [] t /\ dims_ok None t.
Proof.
  cbv zeta. unfold sampling_sweep. split.
  - apply (for_in_emitted (evals_after_loads [] [])); [exact I | |].
    + intros t1 t2. apply evals_after_loads_app.
    + intros. apply sampling_body_invariants.
  - apply (for_in_emitted (dims_ok None)); [exact I | |].
    + intros t1 t2. apply dims_ok_app.
    + intros. apply sampling_body_invariants.
Qed.

End CellFacts.

(* ================================================================== *)
(** * Facts about the statistics *)

Section StatsFacts.

Lemma single_mean (r : Q) : (arithmetic_mean [r] == r)%Q.
Proof. unfold arithmetic_mean, Qlen; simpl. field. Qed.

Lemma single_variance (r : Q) : (population_variance [r] == 0)%Q.
Proof.
  unfold population_variance, squared_deviations, arithmetic_mean, Qlen;
    simpl. field.
Qed.

End StatsFacts.

(* ================================================================== *)
(** * The sampling body, when it completes and when it raises *)

Section SamplingFacts.

Context {W : Type} (X : Externals W).

(** A pass that completes: the set-up completed, all runs returned, and
    the record is the header, the six set-up calls, the runs and the print
    of the statistics. *)
Lemma sampling_body_ok n pw vw results layout s results' :
  res (sampling_body X n pw vw results layout s) = Ok results' ->
  exists env agent rewards,
    res (setup X layout pw vw s) = Ok (env, agent) /\
    List.length rewards = n /\
    results' =
      results ++
      [(layout, np_mean rewards, np_std rewards,
        ("generalization/" ++ layout ++ "/eval_sampling.gif")%string)] /\
    emitted (sampling_body X n pw vw results layout s) =
      EvPrint [Lit (nl ++ "[Sampling Eval] Layout: ")%string;
               Fmt "" (VStr layout)]
      :: emitted (setup X layout pw vw s) ++
         run_events agent env layout 0 (map Ok rewards) ++
         [EvPrint [Lit "Sampling eval on "; Fmt "" (VStr layout);
                   Lit ": mean="; Fmt ".2f" (VNum (np_mean rewards));
                   Lit " ± "; Fmt ".2f" (VNum (np_std rewards))]].
Proof.
  intros Hok. pose proof (sampling_body_run X n pw vw results layout s) as H.
  cbv zeta in H.
  destruct (res (setup X layout pw vw s)) as [[env agent]|e] eqn:Hsu.
  - destruct H as [(rs & Hlen & Hres & Hem)|(rs & e & _ & Hres & _)];
      [|congruence].
    exists env, agent, rs. rewrite Hres in Hok. injection Hok as <-. auto.
  - destruct H as [Hres _]. congruence.
Qed.

(** A pass that raises: the last call made is the one that raised. *)
Lemma sampling_body_raise n pw vw results layout s e :
  res (sampling_body X n pw vw results layout s) = Raise e ->
  exists pre ev,
    emitted (sampling_body X n pw vw results layout s) = pre ++ [ev] /\
    raised ev = Some e.
Proof.
  intros Hr. pose proof (sampling_body_run X n pw vw results layout s) as H.
  cbv zeta in H.
  destruct (res (setup X layout pw vw s)) as [[env agent]|e0] eqn:Hsu.
  - destruct H as [(rs & _ & Hres & _)|(rs & e1 & _ & Hres & Hem)];
      [congruence|].
    rewrite Hres in Hr. injection Hr as ->.
    rewrite run_events_app in Hem. cbn [run_events] in Hem.
    eexists (EvPrint _ :: emitted (setup X layout pw vw s) ++
               run_events agent env layout 0 (map Ok rs)), _.
    split; [rewrite Hem; cbn [app]; now rewrite <- app_assoc | reflexivity].
  - destruct H as [Hres Hem]. rewrite Hres in Hr. injection Hr as ->.
    destruct (setup_raise X _ _ _ _ _ Hsu) as (pre & ev & Hsplit & Hev).
    exists (EvPrint [Lit (nl ++ "[Sampling Eval] Layout: ")%string;
                     Fmt "" (VStr layout)] :: pre), ev.
    rewrite Hem, Hsplit. auto.
Qed.

End SamplingFacts.

(* ================================================================== *)
(** * The statistics of the sampling evaluation *)

(** C2.  With a single run, a pass of the sampling loop that completes
    records a mean equal to the reward of that run and a standard deviation
    that is exactly 0; and a pass that raises stopped at a call to a
    collaborator that raised: the aggregation itself raises nothing, so no
    division error. *)
Theorem single_run_statistics {W : Type} (X : Externals W) :
  forall pw vw results layout s,
    (forall results',
        res (sampling_body X 1 pw vw results layout s) = Ok results' ->
        exists reward m v,
          eval_rewards (emitted (sampling_body X 1 pw vw results layout s)) =
            [reward] /\
          results' =
            results ++
            [(layout, Num m, Sqrt v,
              ("generalization/" ++ layout ++ "/eval_sampling.gif")%string)] /\
          (m == reward)%Q /\ (v == 0)%Q /\
          np_real (Num m) = Some (Q2R reward) /\
          np_real (Sqrt v) = Some 0%R) /\
    (forall e,
        res (sampling_body X 1 pw vw results layout s) = Raise e ->
        exists pre ev,
          emitted (sampling_body X 1 pw vw results layout s) = pre ++ [ev] /\
          raised ev = Some e).
Proof.
  intros pw vw results layout s. split.
  - intros results' Hok.
    destruct (sampling_body_ok X _ _ _ _ _ _ _ Hok)
      as (env & agent & rewards & Hsu & Hlen & -> & Hem).
    destruct (setup_ok X _ _ _ _ _ _ Hsu) as (_ & _ & _ & Hsuem).
    destruct rewards as [|reward [|? ?]]; try discriminate Hlen.
    exists reward, (arithmetic_mean [reward]),
      (population_variance [reward]).
    split; [|split; [reflexivity|]].
    + rewrite Hem, Hsuem. reflexivity.
    + pose proof (single_mean reward) as Hm.
      pose proof (single_variance reward) as Hv.
      repeat split; auto; cbn [np_real].
      * f_equal. now apply Qeq_eqR.
      * rewrite (Qeq_eqR _ _ Hv). f_equal.
        replace (Q2R 0) with 0%R by (unfold Q2R; simpl; lra).
        apply sqrt_0.
  - apply sampling_body_raise.
Qed.

Lemma single_run_statistics_witness :
  (exists results',
      res (sampling_body demo_world 1 policy_weights value_weights []
             "cramped_room" start) = Ok results' /\
      exists reward m v,
        eval_rewards
          (emitted (sampling_body demo_world 1 policy_weights value_weights []
                      "cramped_room" start)) = [reward] /\
        results' =
          [] ++ [("cramped_room", Num m, Sqrt v,
                  "generalization/cramped_room/eval_sampling.gif")] /\
        (m == reward)%Q /\ (v == 0)%Q /\
        np_real (Num m) = Some (Q2R reward) /\
        np_real (Sqrt v) = Some 0%R) /\
  (res (sampling_body mismatch_world 1 policy_weights value_weights []
          "asymmetric_advantages" start) =
     Raise "ValueError: shape mismatch" /\
   exists pre ev,
     emitted (sampling_body mismatch_world 1 policy_weights value_weights []
                "asymmetric_advantages" start) = pre ++ [ev] /\
     raised ev = Some "ValueError: shape mismatch").
Proof.
  split.
  - eexists. split; [vm_compute; reflexivity|].
    apply (proj1 (single_run_statistics demo_world policy_weights
                    value_weights [] "cramped_room" start)).
    vm_compute; reflexivity.
  - split; [vm_compute; reflexivity|].
    apply (proj2 (single_run_statistics mismatch_world policy_weights
                    value_weights [] "asymmetric_advantages" start)).
    vm_compute; reflexivity.
Defined.

(* ================================================================== *)
(** * The sweeps over the layouts *)

Section SweepFacts.

Context {W : Type} (X : Externals W).

(** On success, a reading of the record that distributes over
    concatenation and is [[g x]] on every pass is [map g] of the list. *)
Lemma for_in_ok_map {A S B} (f : list event -> list B) (g : A -> B)
    (body : S -> A -> M W S) :
  f [] = [] ->
  (forall t1 t2, f (t1 ++ t2) = f t1 ++ f t2) ->
  (forall acc x s, f (emitted (body acc x s)) = [g x]) ->
  forall xs acc s acc',
    res (for_in xs body acc s) = Ok acc' ->
    f (emitted (for_in xs body acc s)) = map g xs.
Proof.
  intros Hnil Happ Hbody.
  induction xs as [|x xs IH]; intros acc s acc'; simpl; [auto|].
  rewrite bind_res, bind_emitted, Happ, Hbody.
  destruct (res (body acc x s)) eqn:E; [|discriminate].
  intros H. now rewrite (IH _ _ _ H).
Qed.

Lemma greedy_body_ok_layout pw vw results layout s results' :
  res (greedy_body X pw vw results layout s) = Ok results' ->
  map greedy_layout results' = map greedy_layout results ++ [layout].
Proof.
  intros Hok. pose proof (greedy_body_run X pw vw results layout s) as H.
  cbv zeta in H.
  destruct (res (setup X layout pw vw s)) as [[env agent]|e].
  - destruct H as [(r & Hres & _)|(e & Hres & _)]; [|congruence].
    rewrite Hres in Hok. injection Hok as <-. now rewrite map_app.
  - destruct H as [Hres _]. congruence.
Qed.

Lemma sampling_body_ok_layout n pw vw results layout s results' :
  res (sampling_body X n pw vw results layout s) = Ok results' ->
  map sampling_layout results' = map sampling_layout results ++ [layout].
Proof.
  intros Hok.
  destruct (sampling_body_ok X _ _ _ _ _ _ _ Hok)
    as (env & agent & rewards & _ & _ & -> & _).
  now rewrite map_app.
Qed.

Lemma greedy_sweep_ok_requests layouts pw vw s results :
  res (greedy_sweep X layouts pw vw s) = Ok results ->
  env_requests (emitted (greedy_sweep X layouts pw vw s)) =
  map (fun l => [l]) layouts.
Proof.
  unfold greedy_sweep. apply for_in_ok_map; auto using env_requests_app.
  intros. apply greedy_body_invariants.
Qed.

Lemma sampling_sweep_ok_requests n layouts pw vw s results :
  res (sampling_sweep X n layouts pw vw s) = Ok results ->
  env_requests (emitted (sampling_sweep X n layouts pw vw s)) =
  map (fun l => [l]) layouts.
Proof.
  unfold sampling_sweep. apply for_in_ok_map; auto using env_requests_app.
  intros. apply sampling_body_invariants.
Qed.

Lemma greedy_sweep_stops layouts1 layout layouts2 pw vw s results e :
  res (greedy_sweep X layouts1 pw vw s) = Ok results ->
  res (greedy_body X pw vw results layout
         (final (greedy_sweep X layouts1 pw vw s))) = Raise e ->
  res (greedy_sweep X (layouts1 ++ layout :: layouts2) pw vw s) = Raise e /\
  emitted (greedy_sweep X (layouts1 ++ layout :: layouts2) pw vw s) =
    emitted (greedy_sweep X layouts1 pw vw s) ++
    emitted (greedy_body X pw vw results layout
               (final (greedy_sweep X layouts1 pw vw s))).
Proof. apply for_in_stops. Qed.

Lemma sampling_sweep_stops n layouts1 layout layouts2 pw vw s results e :
  res (sampling_sweep X n layouts1 pw vw s) = Ok results ->
  res (sampling_body X n pw vw results layout
         (final (sampling_sweep X n layouts1 pw vw s))) = Raise e ->
  res (sampling_sweep X n (layouts1 ++ layout :: layouts2) pw vw s) =
    Raise e /\
  emitted (sampling_sweep X n (layouts1 ++ layout :: layouts2) pw vw s) =
    emitted (sampling_sweep X n layouts1 pw vw s) ++
    emitted (sampling_body X n pw vw results layout
               (final (sampling_sweep X n layouts1 pw vw s))).
Proof. apply for_in_stops. Qed.

End SweepFacts.

(** C3.  A sweep, greedy or sampling, that completes returns one entry per
    layout of its input, in the order of the input. *)
Theorem sweep_preserves_order {W : Type} (X : Externals W) :
  forall layouts pw vw s,
    (forall results,
        res (greedy_sweep X layouts pw vw s) = Ok results ->
        map greedy_layout results = layouts /\
        List.length results = List.length layouts) /\
    (forall n_runs results,
        res (sampling_sweep X n_runs layouts pw vw s) = Ok results ->
        map sampling_layout results = layouts /\
        List.length results = List.length layouts).
Proof.
  intros layouts pw vw s. split.
  - intros results Hok.
    assert (H : map greedy_layout results = layouts).
    { apply (for_in_ok_proj (map greedy_layout) (fun l : string => l))
        in Hok.
      - now rewrite map_id in Hok.
      - intros acc x s' acc'. apply greedy_body_ok_layout. }
    split; [exact H|]. now rewrite <- H, length_map.
  - intros n_runs results Hok.
    assert (H : map sampling_layout results = layouts).
    { apply (for_in_ok_proj (map sampling_layout) (fun l : string => l))
        in Hok.
      - now rewrite map_id in Hok.
      - intros acc x s' acc'. apply sampling_body_ok_layout. }
    split; [exact H|]. now rewrite <- H, length_map.
Qed.

Lemma sweep_preserves_order_witness :
  (exists results,
      res (greedy_sweep demo_world ["A"; "B"; "C"] policy_weights
             value_weights start) = Ok results /\
      map greedy_layout results = ["A"; "B"; "C"] /\
      List.length results = 3) /\
  (exists results,
      res (sampling_sweep demo_world 10 ["A"; "B"; "C"] policy_weights
             value_weights start) = Ok results /\
      map sampling_layout results = ["A"; "B"; "C"] /\
      List.length results = 3).
Proof.
  split; eexists; (split; [vm_compute; reflexivity|]).
  - apply (proj1 (sweep_preserves_order demo_world ["A"; "B"; "C"]
                    policy_weights value_weights start)).
    vm_compute; reflexivity.
  - apply (proj2 (sweep_preserves_order demo_world ["A"; "B"; "C"]
                    policy_weights value_weights start) 10).
    vm_compute; reflexivity.
Defined.

(** C4 (as the notebook behaves).  The sweeps catch nothing and take no
    fail-fast switch: when the pass for a layout raises (a weight load that
    fails, or any other call), the sweep stops with that exception; the
    layouts before it were evaluated, and no environment is requested for
    any layout after it. *)
Theorem sweep_stops_at_first_failure {W : Type} (X : Externals W) :
  forall layouts1 layout layouts2 pw vw s,
    (forall results e,
        res (greedy_sweep X layouts1 pw vw s) = Ok results ->
        res (greedy_body X pw vw results layout
               (final (greedy_sweep X layouts1 pw vw s))) = Raise e ->
        res (greedy_sweep X (layouts1 ++ layout :: layouts2) pw vw s) =
          Raise e /\
        env_requests
          (emitted (greedy_sweep X (layouts1 ++ layout :: layouts2) pw vw s)) =
          map (fun l => [l]) (layouts1 ++ [layout])) /\
    (forall n_runs results e,
        res (sampling_sweep X n_runs layouts1 pw vw s) = Ok results ->
        res (sampling_body X n_runs pw vw results layout
               (final (sampling_sweep X n_runs layouts1 pw vw s))) = Raise e ->
        res (sampling_sweep X n_runs (layouts1 ++ layout :: layouts2)
               pw vw s) = Raise e /\
        env_requests
          (emitted (sampling_sweep X n_runs (layouts1 ++ layout :: layouts2)
                      pw vw s)) =
          map (fun l => [l]) (layouts1 ++ [layout])).
Proof.
  intros layouts1 layout layouts2 pw vw s. split.
  - intros results e Hok Hraise.
    destruct (greedy_sweep_stops X _ _ layouts2 _ _ _ _ _ Hok Hraise)
      as [Hres Hem].
    split; [exact Hres|].
    rewrite Hem, env_requests_app, map_app.
    rewrite (greedy_sweep_ok_requests X _ _ _ _ _ Hok).
    f_equal. apply greedy_body_invariants.
  - intros n_runs results e Hok Hraise.
    destruct (sampling_sweep_stops X _ _ _ layouts2 _ _ _ _ _ Hok Hraise)
      as [Hres Hem].
    split; [exact Hres|].
    rewrite Hem, env_requests_app, map_app.
    rewrite (sampling_sweep_ok_requests X _ _ _ _ _ _ Hok).
    f_equal. apply sampling_body_invariants.
Qed.

(** In the world where the checkpoint does not fit the agent built for
    asymmetric_advantages, the greedy sweep of the notebook's three layouts
    stops there, and so does the sampling sweep. *)
Lemma sweep_stops_at_first_failure_witness :
  (res (greedy_sweep mismatch_world
          (["cramped_room"] ++ "asymmetric_advantages" ::
           ["forced_coordination"]) policy_weights value_weights start) =
     Raise "ValueError: shape mismatch" /\
   env_requests
     (emitted (greedy_sweep mismatch_world
                 (["cramped_room"] ++ "asymmetric_advantages" ::
                  ["forced_coordination"]) policy_weights value_weights
                 start)) =
     map (fun l => [l]) (["cramped_room"] ++ ["asymmetric_advantages"])) /\
  (res (sampling_sweep mismatch_world 10
          (["cramped_room"] ++ "asymmetric_advantages" ::
           ["forced_coordination"]) policy_weights value_weights start) =
     Raise "ValueError: shape mismatch" /\
   env_requests
     (emitted (sampling_sweep mismatch_world 10
                 (["cramped_room"] ++ "asymmetric_advantages" ::
                  ["forced_coordination"]) policy_weights value_weights
                 start)) =
     map (fun l => [l]) (["cramped_room"] ++ ["asymmetric_advantages"])).
Proof.
  split.
  - eapply (proj1 (sweep_stops_at_first_failure mismatch_world
                     ["cramped_room"] "asymmetric_advantages"
                     ["forced_coordination"] policy_weights value_weights
                     start));
      vm_compute; reflexivity.
  - eapply (proj2 (sweep_stops_at_first_failure mismatch_world
                     ["cramped_room"] "asymmetric_advantages"
                     ["forced_coordination"] policy_weights value_weights
                     start) 10);
      vm_compute; reflexivity.
Defined.

(** C4 as stated fails.  With the checkpoint file missing, the weight load
    for the first layout ends the greedy cell with its exception: no episode
    runs and the two remaining layouts are never evaluated.  With a
    checkpoint that does not fit the agent built for asymmetric_advantages,
    the cell ends there, after the one episode of cramped_room, and
    forced_coordination is never evaluated. *)
Lemma sweep_aborts_on_failed_load :
  (res (cell_greedy missing_checkpoint_world start) =
     Raise "FileNotFoundError: checkpoint" /\
   (exists pre agent,
       emitted (cell_greedy missing_checkpoint_world start) =
       pre ++ [EvLoad PolicyNet agent policy_weights
                 (Raise "FileNotFoundError: checkpoint")]) /\
   env_requests (emitted (cell_greedy missing_checkpoint_world start)) =
     [["cramped_room"]] /\
   filter is_eval (emitted (cell_greedy missing_checkpoint_world start)) =
     []) /\
  (res (cell_greedy mismatch_world start) =
     Raise "ValueError: shape mismatch" /\
   (exists pre agent,
       emitted (cell_greedy mismatch_world start) =
       pre ++ [EvLoad PolicyNet agent policy_weights
                 (Raise "ValueError: shape mismatch")]) /\
   env_requests (emitted (cell_greedy mismatch_world start)) =
     [["cramped_room"]; ["asymmetric_advantages"]] /\
   List.length (filter is_eval (emitted (cell_greedy mismatch_world start))) =
     1 /\
   ~ In ["forced_coordination"]
        (env_requests (emitted (cell_greedy mismatch_world start)))).
Proof.
  split.
  - split; [vm_compute; reflexivity|]. split.
    + eexists (removelast
                 (emitted (cell_greedy missing_checkpoint_world start))), _.
      vm_compute. reflexivity.
    + split; vm_compute; reflexivity.
  - split; [vm_compute; reflexivity|]. split.
    + eexists (removelast (emitted (cell_greedy mismatch_world start))), _.
      vm_compute. reflexivity.
    + split; [vm_compute; reflexivity|]. split; [vm_compute; reflexivity|].
      vm_compute. intros [H|[H|[]]]; discriminate H.
Qed.

(* ================================================================== *)
(** * Greedy action selection *)

Section GreedyFacts.

(** The scan returns an index of the whole distribution that holds a
    highest probability, and the lowest such index. *)
Lemma argmax_scan_spec (dist : list Q) :
  forall (pre : list Q) (best : nat) (best_p : Q),
    best < List.length pre ->
    nth best (pre ++ dist) 0%Q = best_p ->
    (forall j, j < List.length pre -> (nth j (pre ++ dist) 0 <= best_p)%Q) ->
    (forall j, j < best -> (nth j (pre ++ dist) 0 < best_p)%Q) ->
    let a := argmax_scan best best_p (List.length pre) dist in
    a < List.length (pre ++ dist) /\
    (forall j, j < List.length (pre ++ dist) ->
               (nth j (pre ++ dist) 0 <= nth a (pre ++ dist) 0)%Q) /\
    (forall j, j < a -> (nth j (pre ++ dist) 0 < nth a (pre ++ dist) 0)%Q).
Proof.
  induction dist as [|p t IH]; intros pre best best_p Hb Hnth Hle Hlt;
    cbv zeta.
  - simpl. rewrite app_nil_r in *. rewrite Hnth. auto.
  - cbn [argmax_scan].
    assert (Hp : nth (List.length pre) (pre ++ p :: t) 0%Q = p).
    { rewrite app_nth2, Nat.sub_diag by lia. reflexivity. }
    assert (Hre : pre ++ p :: t = (pre ++ [p]) ++ t)
      by now rewrite <- app_assoc.
    assert (Hlen : List.length (pre ++ [p]) = S (List.length pre))
      by (rewrite length_app; simpl; lia).
    destruct (Qle_bool p best_p) eqn:E.
    + apply Qle_bool_iff in E.
      rewrite Hre in *. rewrite <- Hlen.
      apply IH; auto; try lia.
      intros j Hj. rewrite Hlen in Hj.
      destruct (Nat.eq_dec j (List.length pre)) as [->|Hne].
      * now rewrite Hp.
      * apply Hle. lia.
    + assert (Hgt : (best_p < p)%Q).
      { apply Qnot_le_lt. intros H. apply Qle_bool_iff in H. congruence. }
      rewrite Hre in *. rewrite <- Hlen.
      apply IH; auto; try lia.
      * intros j Hj. rewrite Hlen in Hj.
        destruct (Nat.eq_dec j (List.length pre)) as [->|Hne].
        -- rewrite Hp. apply Qle_refl.
        -- apply Qle_trans with best_p; [apply Hle; lia|].
           now apply Qlt_le_weak.
      * intros j Hj. apply Qle_lt_trans with best_p; [apply Hle; lia|].
        exact Hgt.
Qed.

Lemma greedy_action_spec (dist : list Q) :
  dist <> [] ->
  exists a,
    greedy_action dist = Some a /\
    a < List.length dist /\
    (forall j, j < List.length dist -> (nth j dist 0 <= nth a dist 0)%Q) /\
    (forall j, j < a -> (nth j dist 0 < nth a dist 0)%Q).
Proof.
  destruct dist as [|p t]; [congruence|]. intros _.
  exists (argmax_scan 0 p 1 t). split; [reflexivity|].
  apply (argmax_scan_spec t [p] 0 p); simpl; auto.
  - intros j Hj. assert (j = 0) as -> by lia. apply Qle_refl.
  - intros j Hj. lia.
Qed.

End GreedyFacts.

(** C5.  GREEDY action selection is a function of the distribution alone:
    whatever pseudo-random draws accompany two selections on the same
    distribution, the same action is selected; on a non-empty distribution
    it is an action of highest probability, and the lowest index among
    those.  The greedy sweep of the notebook asks for this mode in every
    episode it runs ([greedy=True]). *)
Theorem greedy_selection_deterministic :
  (forall dist u u',
      select_action GREEDY dist u = select_action GREEDY dist u' /\
      (dist <> [] ->
       exists a,
         select_action GREEDY dist u = Some a /\
         a < List.length dist /\
         (forall j, j < List.length dist ->
                    (nth j dist 0 <= nth a dist 0)%Q) /\
         (forall j, j < a -> (nth j dist 0 < nth a dist 0)%Q))) /\
  (forall (W : Type) (X : Externals W) layouts pw vw s a e g sg gp r,
      In (EvEval a e g sg gp r) (emitted (greedy_sweep X layouts pw vw s)) ->
      g = true).
Proof.
  split.
  - intros dist u u'. split; [reflexivity|].
    intros Hne. apply greedy_action_spec, Hne.
  - intros W X layouts pw vw s a e g sg gp r Hin.
    destruct (greedy_sweep_invariants X layouts pw vw s) as (_ & _ & HF).
    rewrite Forall_forall in HF. exact (HF _ Hin).
Qed.

(** Two actions tie at 0.4: the lower index, 1, is selected. *)
Lemma greedy_selection_deterministic_witness :
  [0.1; 0.4; 0.4; 0.1]%Q <> [] /\
  (exists a,
      select_action GREEDY [0.1; 0.4; 0.4; 0.1]%Q 0.3 = Some a /\
      a < 4 /\
      (forall j, j < 4 ->
                 (nth j [0.1; 0.4; 0.4; 0.1] 0 <= nth a [0.1; 0.4; 0.4; 0.1] 0)%Q) /\
      (forall j, j < a ->
                 (nth j [0.1; 0.4; 0.4; 0.1] 0 < nth a [0.1; 0.4; 0.4; 0.1] 0)%Q)) /\
  select_action GREEDY [0.1; 0.4; 0.4; 0.1]%Q 0.3 = Some 1 /\
  In (EvEval first_agent first_env true true
        (Some "demo/generalization/cramped_room_eval_greedy.gif") (Ok 2%Q))
     (emitted (cell_greedy demo_world start)) /\
  true = true.
Proof.
  split; [discriminate|]. split.
  - apply (proj2 (proj1 greedy_selection_deterministic
                    [0.1; 0.4; 0.4; 0.1]%Q 0.3%Q 0.7%Q)).
    discriminate.
  - split; [reflexivity|].
    assert (Hin : In (EvEval first_agent first_env true true
                        (Some "demo/generalization/cramped_room_eval_greedy.gif")
                        (Ok 2%Q))
                     (emitted (cell_greedy demo_world start)))
      by (vm_compute; do 7 right; left; reflexivity).
    split; [exact Hin|].
    exact (proj2 greedy_selection_deterministic _ demo_world test_layouts
             policy_weights value_weights start _ _ _ _ _ _ Hin).
Defined.

(* ================================================================== *)
(** * One agent and one environment per layout *)

Section PairFacts.

Context {W : Type} (X : Externals W).

Lemma count_app (p : event -> bool) (t1 t2 : list event) :
  List.length (filter p (t1 ++ t2)) =
  List.length (filter p t1) + List.length (filter p t2).
Proof. now rewrite filter_app, length_app. Qed.

(** The calls of a completed pass of the sampling loop, by kind. *)
Lemma sampling_body_ok_calls n pw vw results layout s results' :
  res (sampling_body X n pw vw results layout s) = Ok results' ->
  exists env agent rewards,
    env_layouts env = [layout] /\
    List.length rewards = n /\
    filter is_env (emitted (sampling_body X n pw vw results layout s)) =
      [EvEnv [layout] (Ok env)] /\
    filter is_agent (emitted (sampling_body X n pw vw results layout s)) =
      [EvAgent (observation_space_shape0 env) (action_space_n env)
         "deep" true true (Ok agent)] /\
    filter is_eval (emitted (sampling_body X n pw vw results layout s)) =
      run_events agent env layout 0 (map Ok rewards).
Proof.
  intros Hok.
  destruct (sampling_body_ok X _ _ _ _ _ _ _ Hok)
    as (env & agent & rewards & Hsu & Hlen & _ & Hem).
  destruct (setup_ok X _ _ _ _ _ _ Hsu) as (_ & Hl & _ & Hsuem).
  exists env, agent, rewards. rewrite Hem, Hsuem.
  cbn [app filter is_env is_agent is_eval]. rewrite !filter_app.
  rewrite run_events_evals.
  destruct (run_events_no_env agent env layout 0 (map Ok rewards))
    as [-> ->].
  cbn. rewrite app_nil_r. auto.
Qed.

End PairFacts.

(** C6.  In a completed pass of the sampling loop for a layout, exactly one
    environment is constructed (for that layout) and exactly one agent, and
    the [n_runs] episode runs are all made on that agent and that
    environment; so a completed sampling sweep constructs as many
    environments and as many agents as it has layouts, for [n_runs] times
    as many episode runs. *)
Theorem one_pair_per_layout {W : Type} (X : Externals W) :
  (forall n_runs pw vw results layout s results',
      res (sampling_body X n_runs pw vw results layout s) = Ok results' ->
      exists env agent rewards,
        env_layouts env = [layout] /\
        List.length rewards = n_runs /\
        filter is_env
          (emitted (sampling_body X n_runs pw vw results layout s)) =
          [EvEnv [layout] (Ok env)] /\
        filter is_agent
          (emitted (sampling_body X n_runs pw vw results layout s)) =
          [EvAgent (observation_space_shape0 env) (action_space_n env)
             "deep" true true (Ok agent)] /\
        filter is_eval
          (emitted (sampling_body X n_runs pw vw results layout s)) =
          run_events agent env layout 0 (map Ok rewards)) /\
  (forall n_runs layouts pw vw s results,
      res (sampling_sweep X n_runs layouts pw vw s) = Ok results ->
      let t := emitted (sampling_sweep X n_runs layouts pw vw s) in
      List.length (filter is_env t) = List.length layouts /\
      List.length (filter is_agent t) = List.length layouts /\
      List.length (filter is_eval t) = List.length layouts * n_runs).
Proof.
  split;
    [intros n_runs pw vw results layout s results' H;
     exact (sampling_body_ok_calls X _ _ _ _ _ _ _ H)|].
  intros n_runs layouts pw vw s results Hok. cbv zeta.
  unfold sampling_sweep in *. repeat split.
  - rewrite <- (Nat.mul_1_r (List.length layouts)).
    apply (for_in_ok_sum (fun t => List.length (filter is_env t)) 1)
      with (acc' := results); auto using count_app.
    intros acc x s' acc' H.
    destruct (sampling_body_ok_calls X _ _ _ _ _ _ _ H)
      as (env & agent & rewards & _ & _ & -> & _). reflexivity.
  - rewrite <- (Nat.mul_1_r (List.length layouts)).
    apply (for_in_ok_sum (fun t => List.length (filter is_agent t)) 1)
      with (acc' := results); auto using count_app.
    intros acc x s' acc' H.
    destruct (sampling_body_ok_calls X _ _ _ _ _ _ _ H)
      as (env & agent & rewards & _ & _ & _ & -> & _). reflexivity.
  - apply (for_in_ok_sum (fun t => List.length (filter is_eval t)) n_runs)
      with (acc' := results); auto using count_app.
    intros acc x s' acc' H.
    destruct (sampling_body_ok_calls X _ _ _ _ _ _ _ H)
      as (env & agent & rewards & _ & Hlen & _ & _ & ->).
    now rewrite run_events_length, length_map.
Qed.

Lemma one_pair_per_layout_witness :
  (exists results',
      res (sampling_body demo_world 10 policy_weights value_weights []
             "cramped_room" start) = Ok results' /\
      exists env agent rewards,
        env_layouts env = ["cramped_room"] /\
        List.length rewards = 10 /\
        filter is_env
          (emitted (sampling_body demo_world 10 policy_weights value_weights
                      [] "cramped_room" start)) =
          [EvEnv ["cramped_room"] (Ok env)] /\
        filter is_agent
          (emitted (sampling_body demo_world 10 policy_weights value_weights
                      [] "cramped_room" start)) =
          [EvAgent (observation_space_shape0 env) (action_space_n env)
             "deep" true true (Ok agent)] /\
        filter is_eval
          (emitted (sampling_body demo_world 10 policy_weights value_weights
                      [] "cramped_room" start)) =
          run_events agent env "cramped_room" 0 (map Ok rewards)) /\
  (exists results,
      res (cell_sampling demo_world start) = Ok results /\
      List.length (filter is_env (emitted (cell_sampling demo_world start))) =
        3 /\
      List.length (filter is_agent (emitted (cell_sampling demo_world start))) =
        3 /\
      List.length (filter is_eval (emitted (cell_sampling demo_world start))) =
        3 * 10).
Proof.
  split.
  - eexists. split; [vm_compute; reflexivity|].
    eapply (proj1 (one_pair_per_layout demo_world)).
    vm_compute; reflexivity.
  - eexists. split; [vm_compute; reflexivity|].
    eapply (proj2 (one_pair_per_layout demo_world) N_RUNS test_layouts
              policy_weights value_weights start).
    vm_compute; reflexivity.
Defined.

(** C7.  In the sampling pass of a layout, however it ends, the episode run
    of index [k] is asked to save a GIF exactly when [k = 0], with the
    layout's sampling GIF path; every run of index [k > 0] is invoked with
    [save_gif=False] and [gif_path=None]. *)
Theorem gif_only_for_first_run {W : Type} (X : Externals W) :
  forall n_runs pw vw results layout s k ev,
    nth_error
      (filter is_eval
         (emitted (sampling_body X n_runs pw vw results layout s))) k =
      Some ev ->
    exists agent env r,
      ev = EvEval agent env false (k =? 0)
             (if k =? 0 then Some (sampling_gif_path layout) else None) r.
Proof.
  intros n_runs pw vw results layout s k ev.
  pose proof (sampling_body_run X n_runs pw vw results layout s) as H.
  cbv zeta in H.
  pose proof (setup_eval_free X layout pw vw s) as Hfree.
  destruct (res (setup X layout pw vw s)) as [[env agent]|e].
  - assert (Hrs : exists rs,
               filter is_eval
                 (emitted (sampling_body X n_runs pw vw results layout s)) =
               run_events agent env layout 0 rs).
    { destruct H as [(rs & _ & _ & ->)|(rs & e & _ & _ & ->)].
      - exists (map Ok rs). cbn [filter is_eval]. rewrite !filter_app, Hfree.
        rewrite run_events_evals. cbn. now rewrite app_nil_r.
      - exists (map Ok rs ++ [Raise e]). cbn [filter is_eval].
        rewrite !filter_app, Hfree. now rewrite run_events_evals. }
    destruct Hrs as [rs ->]. intros Hnth.
    exists agent, env. exact (run_events_nth _ _ _ _ 0 k ev Hnth).
  - destruct H as [_ ->]. cbn [filter is_eval]. rewrite Hfree.
    destruct k; discriminate.
Qed.

(** The runs of index 0 and 3 of the demo pass for cramped_room. *)
Lemma gif_only_for_first_run_witness :
  (nth_error
     (filter is_eval
        (emitted (sampling_body demo_world 10 policy_weights value_weights
                    [] "cramped_room" start))) 0 =
     Some (EvEval first_agent first_env false true
             (Some "demo/generalization/cramped_room_eval_sampling.gif")
             (Ok 2%Q)) /\
   exists agent env r,
     EvEval first_agent first_env false true
       (Some "demo/generalization/cramped_room_eval_sampling.gif") (Ok 2%Q) =
     EvEval agent env false (0 =? 0)
       (if 0 =? 0 then Some (sampling_gif_path "cramped_room") else None) r) /\
  (nth_error
     (filter is_eval
        (emitted (sampling_body demo_world 10 policy_weights value_weights
                    [] "cramped_room" start))) 3 =
     Some (EvEval first_agent first_env false false None (Ok 2%Q)) /\
   exists agent env r,
     EvEval first_agent first_env false false None (Ok 2%Q) =
     EvEval agent env false (3 =? 0)
       (if 3 =? 0 then Some (sampling_gif_path "cramped_room") else None) r).
Proof.
  split; (split; [vm_compute; reflexivity|]).
  - apply (gif_only_for_first_run demo_world 10 policy_weights value_weights
             [] "cramped_room" start 0).
    vm_compute; reflexivity.
  - apply (gif_only_for_first_run demo_world 10 policy_weights value_weights
             [] "cramped_room" start 3).
    vm_compute; reflexivity.
Defined.

(* ================================================================== *)
(** * What the reporting cells show *)

(** C8 (evaluated on the notebook's three layouts, in the demo world).  The
    sampling cell saves the first run of each layout under
    [demo/generalization/<layout>_eval_sampling.gif] but records
    [generalization/<layout>/eval_sampling.gif] in [results_sampling], so
    the sampling GIF listing finds no file for any layout; and the greedy
    GIF listing prints [Layout: cramped_room] before the artifact of every
    layout. *)
Theorem reported_gifs_diverge :
  (exists results_sampling,
      res (cell_sampling demo_world start) = Ok results_sampling /\
      map sampling_layout results_sampling = test_layouts /\
      saved_gif_paths (emitted (cell_sampling demo_world start)) =
        ["demo/generalization/cramped_room_eval_sampling.gif";
         "demo/generalization/asymmetric_advantages_eval_sampling.gif";
         "demo/generalization/forced_coordination_eval_sampling.gif"] /\
      map sampling_recorded_gif results_sampling =
        ["generalization/cramped_room/eval_sampling.gif";
         "generalization/asymmetric_advantages/eval_sampling.gif";
         "generalization/forced_coordination/eval_sampling.gif"] /\
      map render
        (printed
           (emitted
              (sampling_gif_listing demo_world results_sampling
                 (final (cell_sampling demo_world start))))) =
        [Some "Layout: cramped_room";
         Some "GIF not found: generalization/cramped_room/eval_sampling.gif";
         Some "Layout: asymmetric_advantages";
         Some "GIF not found: generalization/asymmetric_advantages/eval_sampling.gif";
         Some "Layout: forced_coordination";
         Some "GIF not found: generalization/forced_coordination/eval_sampling.gif"]) /\
  (exists results_greedy,
      res (cell_greedy demo_world start) = Ok results_greedy /\
      map greedy_layout results_greedy = test_layouts /\
      emitted
        (greedy_gif_listing demo_world results_greedy
           (final (cell_greedy demo_world start))) =
        [EvPrint [Lit "Layout: cramped_room"];
         EvExists "demo/generalization/cramped_room_eval_greedy.gif" true;
         EvDisplay "demo/generalization/cramped_room_eval_greedy.gif";
         EvPrint [Lit "Layout: cramped_room"];
         EvExists "demo/generalization/asymmetric_advantages_eval_greedy.gif"
           true;
         EvDisplay "demo/generalization/asymmetric_advantages_eval_greedy.gif";
         EvPrint [Lit "Layout: cramped_room"];
         EvExists "demo/generalization/forced_coordination_eval_greedy.gif"
           true;
         EvDisplay "demo/generalization/forced_coordination_eval_greedy.gif"]).
Proof.
  split; eexists; (split; [vm_compute; reflexivity|]);
    repeat split; vm_compute; reflexivity.
Qed.

(* ================================================================== *)
(** * Weights are loaded before any episode runs *)

(** C9.  In each evaluation section (the single-layout cell, the greedy
    sweep, the sampling sweep), on every outcome: every episode run comes
    after a successful load of the policy and of the value weights into the
    agent it runs, and a call that raises, a weight load in particular, is
    the last call made, its exception being the outcome of the section.  So
    a missing or ill-shaped parameter file is raised before any episode
    step of that agent, and nothing runs after it. *)
Theorem weights_loaded_before_episodes {W : Type} (X : Externals W) :
  forall s,
    (loads_precede_evals (emitted (cell_cramped_room X s)) /\
     stops_at_raise (cell_cramped_room X s)) /\
    (forall layouts pw vw,
        loads_precede_evals (emitted (greedy_sweep X layouts pw vw s)) /\
        stops_at_raise (greedy_sweep X layouts pw vw s)) /\
    (forall n_runs layouts pw vw,
        loads_precede_evals
          (emitted (sampling_sweep X n_runs layouts pw vw s)) /\
        stops_at_raise (sampling_sweep X n_runs layouts pw vw s)).
Proof.
  intros s. split; [|split].
  - split; [|apply stops_cell_cramped_room].
    apply evals_after_loads_precede, cell_cramped_room_invariants.
  - intros layouts pw vw. split; [|apply stops_greedy_sweep].
    apply evals_after_loads_precede, greedy_sweep_invariants.
  - intros n_runs layouts pw vw. split; [|apply stops_sampling_sweep].
    apply evals_after_loads_precede, sampling_sweep_invariants.
Qed.

(** In the world of the ill-fitting checkpoint, the policy load for
    asymmetric_advantages raises: it is the last call of the sampling cell,
    which ends with its exception. *)
Lemma weights_loaded_before_episodes_witness :
  exists pre agent,
    emitted (cell_sampling mismatch_world start) =
      pre ++
      EvLoad PolicyNet agent policy_weights
        (Raise "ValueError: shape mismatch") :: [] /\
    agent_obs_dim agent = 62 /\
    ([] = @nil event /\
     res (cell_sampling mismatch_world start) =
       Raise "ValueError: shape mismatch").
Proof.
  eexists (removelast (emitted (cell_sampling mismatch_world start))), _.
  assert (H : emitted (cell_sampling mismatch_world start) =
              removelast (emitted (cell_sampling mismatch_world start)) ++
              EvLoad PolicyNet
                {| agent_id := 3; agent_obs_dim := 62; agent_act_dim := 6;
                   arch_variant := "deep"; use_reward_shaping := true;
                   use_decay := true |}
                policy_weights (Raise "ValueError: shape mismatch") :: [])
    by (vm_compute; reflexivity).
  split; [exact H|]. split; [reflexivity|].
  exact (proj2 (proj2 (proj2 (weights_loaded_before_episodes mismatch_world
                                start))
                  N_RUNS test_layouts policy_weights value_weights)
           _ _ _ _ H eq_refl).
Defined.

(* ================================================================== *)
(** * The agent takes its dimensions from the environment *)

(** C10.  In each evaluation section, on every outcome: every agent is
    constructed right after an environment was, with that environment's
    observation dimension and number of actions as its arguments, which the
    agent object carries; and every episode run pairs an agent and an
    environment of equal dimensions.  Agent construction never introduces a
    mismatch. *)
Theorem agent_dimensions_from_env {W : Type} (X : Externals W) :
  forall s,
    built_from_env (emitted (cell_cramped_room X s)) /\
    (forall layouts pw vw,
        built_from_env (emitted (greedy_sweep X layouts pw vw s))) /\
    (forall n_runs layouts pw vw,
        built_from_env (emitted (sampling_sweep X n_runs layouts pw vw s))).
Proof.
  intros s. split; [|split].
  - apply dims_ok_built_from_env, cell_cramped_room_invariants.
  - intros. apply dims_ok_built_from_env, greedy_sweep_invariants.
  - intros. apply dims_ok_built_from_env, sampling_sweep_invariants.
Qed.

(** The agent of the single-layout cell in the demo world: constructed
    right after the 96-by-6 environment, with 96 and 6. *)
Lemma agent_dimensions_from_env_witness :
  exists post pre' layouts env,
    emitted (cell_cramped_room demo_world start) =
      [EvEnv ["cramped_room"] (Ok first_env)] ++
      EvAgent 96 6 "deep" true true (Ok first_agent) :: post /\
    [EvEnv ["cramped_room"] (Ok first_env)] =
      pre' ++ [EvEnv layouts (Ok env)] /\
    96 = observation_space_shape0 env /\
    6 = action_space_n env /\
    forall agent, Ok first_agent = Ok agent ->
      agent_obs_dim agent = observation_space_shape0 env /\
      agent_act_dim agent = action_space_n env.
Proof.
  eexists (skipn 2 (emitted (cell_cramped_room demo_world start))).
  assert (H : emitted (cell_cramped_room demo_world start) =
              [EvEnv ["cramped_room"] (Ok first_env)] ++
              EvAgent 96 6 "deep" true true (Ok first_agent) ::
              skipn 2 (emitted (cell_cramped_room demo_world start)))
    by (vm_compute; reflexivity).
  destruct (proj1 (proj1 (agent_dimensions_from_env demo_world start))
              _ _ _ _ _ _ _ _ H)
    as (pre' & layouts & env & Hpre & Hdims).
  exists pre', layouts, env. split; [exact H|]. split; [exact Hpre|].
  exact Hdims.
Defined.

(* ================================================================== *)
(** * The reporting cells *)

Section ReportFacts.

Context {W : Type} (X : Externals W).

Lemma printed_app (t1 t2 : list event) :
  printed (t1 ++ t2) = printed t1 ++ printed t2.
Proof.
  induction t1 as [|ev t1 IH]; [reflexivity|].
  destruct ev; simpl; now rewrite ?IH.
Qed.

Lemma displayed_app (t1 t2 : list event) :
  displayed (t1 ++ t2) = displayed t1 ++ displayed t2.
Proof.
  induction t1 as [|ev t1 IH]; [reflexivity|].
  destruct ev; simpl; now rewrite ?IH.
Qed.

Lemma bind_known {A B} (m : M W A) (f : A -> M W B) s a s' t :
  m s = {| res := Ok a; final := s'; emitted := t |} ->
  bind m f s = after t (f a s').
Proof. intros H. unfold bind. now rewrite H. Qed.

(** [show_gif] checks the path once and changes nothing; it prints that
    the file was not found, or hands it to [display], whose exception, if
    any, it lets through. *)
Lemma show_gif_run path s :
  show_gif X path s =
  if ext_exists X path (world s) then
    match ext_display X path (world s) with
    | Ok _ =>
        {| res := Ok tt; final := s;
           emitted := [EvExists path true; EvDisplay path] |}
    | Raise e =>
        {| res := Raise e; final := s;
           emitted := [EvExists path true; EvDisplayError path e] |}
    end
  else
    {| res := Ok tt; final := s;
       emitted := [EvExists path false;
                   EvPrint [Lit "GIF not found: "; Fmt "" (VStr path)]] |}.
Proof.
  unfold show_gif, bind, os_path_exists, display_image, print. cbn.
  destruct (ext_exists X path (world s)); [|reflexivity].
  destruct (ext_display X path (world s)); reflexivity.
Qed.

(** A loop whose passes always return and leave the state alone. *)
Lemma for_in_steady {A} (body : unit -> A -> M W unit)
    (ev : A -> state W -> list event) :
  (forall u x s,
      body u x s = {| res := Ok tt; final := s; emitted := ev x s |}) ->
  forall xs s,
    for_in xs body tt s =
    {| res := Ok tt; final := s;
       emitted := flat_map (fun x => ev x s) xs |}.
Proof.
  intros Hbody. induction xs as [|x xs IH]; intros s; [reflexivity|].
  cbn [for_in flat_map]. rewrite (bind_known _ _ _ _ _ _ (Hbody tt x s)).
  rewrite IH. reflexivity.
Qed.

Lemma rows_run {A} (row : A -> line) (body : unit -> A -> M W unit) :
  (forall u x s, body u x s = print (row x) s) ->
  forall xs s,
    for_in xs body tt s =
    {| res := Ok tt; final := s;
       emitted := map (fun x => EvPrint (row x)) xs |}.
Proof.
  intros H xs s.
  rewrite (for_in_steady body (fun x _ => [EvPrint (row x)]))
    by (intros u x s'; now rewrite H).
  apply f_equal. induction xs as [|x xs IH]; simpl; congruence.
Qed.

Lemma printed_rows {A} (row : A -> line) (xs : list A) :
  printed (map (fun x => EvPrint (row x)) xs) = map row xs /\
  displayed (map (fun x => EvPrint (row x)) xs) = [].
Proof.
  induction xs as [|x xs [IH1 IH2]]; [auto|].
  cbn [map printed displayed]. now rewrite IH1, IH2.
Qed.

(** ** A GIF listing: for each entry, a line and [show_gif] *)

Section Listing.

Context {A : Type} (name : A -> line) (path : A -> string)
  (body : unit -> A -> M W unit).

Hypothesis Hbody :
  forall u r s,
    body u r s = bind (print (name r)) (fun _ => show_gif X (path r)) s.

(** The entry can be shown: if a file exists at its path, displaying it
    returns. *)
Let showable (s : state W) (r : A) : Prop :=
  ext_exists X (path r) (world s) = true ->
  ext_display X (path r) (world s) = Ok tt.

(** The calls made for an entry that can be shown. *)
Let shown (s : state W) (r : A) : list event :=
  EvPrint (name r)
  :: EvExists (path r) (ext_exists X (path r) (world s))
  :: (if ext_exists X (path r) (world s) then [EvDisplay (path r)]
      else [EvPrint [Lit "GIF not found: "; Fmt "" (VStr (path r))]]).

Lemma entry_shown u r s :
  showable s r ->
  body u r s = {| res := Ok tt; final := s; emitted := shown s r |}.
Proof.
  unfold showable, shown. intros H. rewrite Hbody. unfold bind, print.
  rewrite show_gif_run.
  destruct (ext_exists X (path r) (world s)); [|reflexivity].
  now rewrite H.
Qed.

Lemma entry_not_shown u r s e :
  ext_exists X (path r) (world s) = true ->
  ext_display X (path r) (world s) = Raise e ->
  body u r s =
  {| res := Raise e; final := s;
     emitted := [EvPrint (name r); EvExists (path r) true;
                 EvDisplayError (path r) e] |}.
Proof.
  intros He Hd. rewrite Hbody. unfold bind, print.
  rewrite show_gif_run, He, Hd. reflexivity.
Qed.

(** Each entry can be shown or its display raises. *)
Lemma showable_dec s r :
  showable s r \/
  exists e, ext_exists X (path r) (world s) = true /\
            ext_display X (path r) (world s) = Raise e.
Proof.
  unfold showable. destruct (ext_exists X (path r) (world s)).
  - destruct (ext_display X (path r) (world s)) as [[]|e]; eauto.
  - left. discriminate.
Qed.

(** When every entry can be shown, the listing returns. *)
Lemma listing_ok rs s :
  (forall r, In r rs -> showable s r) ->
  for_in rs body tt s =
  {| res := Ok tt; final := s; emitted := flat_map (shown s) rs |}.
Proof.
  induction rs as [|r rs IH]; intros H; [reflexivity|].
  cbn [for_in flat_map].
  rewrite (bind_known _ _ _ _ _ _ (entry_shown tt r s (H r (in_eq _ _)))).
  rewrite IH by (intros r' Hr'; apply H, in_cons, Hr'). reflexivity.
Qed.

(** On every outcome, the listing either returns after showing every
    entry, or stops at the first entry whose display raises, with that
    exception. *)
Lemma listing_run rs s :
  ((forall r, In r rs -> showable s r) /\
   for_in rs body tt s =
   {| res := Ok tt; final := s; emitted := flat_map (shown s) rs |}) \/
  (exists rs1 r rs2 e,
      rs = rs1 ++ r :: rs2 /\
      (forall r', In r' rs1 -> showable s r') /\
      ext_exists X (path r) (world s) = true /\
      ext_display X (path r) (world s) = Raise e /\
      for_in rs body tt s =
      {| res := Raise e; final := s;
         emitted :=
           flat_map (shown s) rs1 ++
           [EvPrint (name r); EvExists (path r) true;
            EvDisplayError (path r) e] |}).
Proof.
  induction rs as [|r rs IH].
  - left. split; [intros r []|reflexivity].
  - destruct (showable_dec s r) as [Hr|(e & He & Hd)].
    + destruct IH as [[Hall E]|(rs1 & r0 & rs2 & e & -> & Hall & He & Hd & E)].
      * left. split.
        -- intros r' [<-|Hr']; auto.
        -- apply listing_ok. intros r' [<-|Hr']; auto.
      * right. exists (r :: rs1), r0, rs2, e.
        split; [reflexivity|]. split.
        -- intros r' [<-|Hr']; auto.
        -- split; [exact He|]. split; [exact Hd|].
           cbn [for_in flat_map app].
           rewrite (bind_known _ _ _ _ _ _ (entry_shown tt r s Hr)).
           rewrite E. cbn [after]. now rewrite <- app_assoc.
    + right. exists [], r, rs, e. split; [reflexivity|].
      split; [intros r' []|]. split; [exact He|]. split; [exact Hd|].
      cbn [for_in flat_map app]. unfold bind.
      now rewrite (entry_not_shown tt r s e He Hd).
Qed.

Lemma shown_printed s rs :
  printed (flat_map (shown s) rs) =
  flat_map
    (fun r =>
       name r
       :: gif_complaint (ext_exists X (path r) (world s)) (path r)) rs /\
  displayed (flat_map (shown s) rs) =
  filter (fun p => ext_exists X p (world s)) (map path rs).
Proof.
  induction rs as [|r rs [IH1 IH2]]; [auto|].
  cbn [flat_map map filter]. unfold shown at 1 3.
  destruct (ext_exists X (path r) (world s));
    cbn [app printed displayed gif_complaint]; now rewrite IH1, IH2.
Qed.

End Listing.

Lemma sampling_listing_body (r : sampling_result) s :
  (let '(layout, _, _, gif_path) := r in
   bind (print [Lit "Layout: "; Fmt "" (VStr layout)])
     (fun _ => show_gif X gif_path)) s =
  bind (print [Lit "Layout: "; Fmt "" (VStr (sampling_layout r))])
    (fun _ : unit => show_gif X (sampling_recorded_gif r)) s.
Proof. now destruct r as [[[layout m] sd] p]. Qed.

Lemma greedy_listing_body (r : greedy_result) s :
  (let '(layout, _, gif_path) := r in
   bind (print [Lit "Layout: cramped_room"])
     (fun _ => show_gif X gif_path)) s =
  bind (print [Lit "Layout: cramped_room"])
    (fun _ : unit => show_gif X (greedy_recorded_gif r)) s.
Proof. now destruct r as [[layout reward] p]. Qed.

End ReportFacts.

(* ================================================================== *)
(** * The greedy sweep, when it completes *)

Section GreedySweepFacts.

Context {W : Type} (X : Externals W).

(** On success, what the loop accumulated is what a reading of its record
    shows, when this holds of every successful pass. *)
Lemma for_in_ok_trace {A S B} (proj : S -> list B)
    (f : list event -> list B) (body : S -> A -> M W S) :
  f [] = [] ->
  (forall t1 t2, f (t1 ++ t2) = f t1 ++ f t2) ->
  (forall acc x s acc',
      res (body acc x s) = Ok acc' ->
      proj acc' = proj acc ++ f (emitted (body acc x s))) ->
  forall xs acc s acc',
    res (for_in xs body acc s) = Ok acc' ->
    proj acc' = proj acc ++ f (emitted (for_in xs body acc s)).
Proof.
  intros Hnil Happ Hbody.
  induction xs as [|x xs IH]; intros acc s acc'; simpl.
  - intros [= <-]. now rewrite Hnil, app_nil_r.
  - rewrite bind_res, bind_emitted, Happ.
    destruct (res (body acc x s)) eqn:E; [|discriminate].
    intros H. rewrite (IH _ _ _ H), (Hbody _ _ _ _ E).
    now rewrite app_assoc.
Qed.

Lemma saved_gif_paths_app (t1 t2 : list event) :
  saved_gif_paths (t1 ++ t2) = saved_gif_paths t1 ++ saved_gif_paths t2.
Proof.
  induction t1 as [|ev t1 IH]; [reflexivity|].
  destruct ev; simpl; auto.
  destruct save_gif, gif_path; simpl; now rewrite ?IH.
Qed.

Lemma eval_rewards_app (t1 t2 : list event) :
  eval_rewards (t1 ++ t2) = eval_rewards t1 ++ eval_rewards t2.
Proof.
  induction t1 as [|ev t1 IH]; [reflexivity|].
  destruct ev; simpl; auto. destruct r; simpl; now rewrite ?IH.
Qed.

(** A pass of the greedy loop that completes. *)
Lemma greedy_body_ok pw vw results layout s results' :
  res (greedy_body X pw vw results layout s) = Ok results' ->
  exists env agent reward,
    res (setup X layout pw vw s) = Ok (env, agent) /\
    results' = results ++ [(layout, reward, greedy_gif_path layout)] /\
    emitted (greedy_body X pw vw results layout s) =
      EvPrint [Lit (nl ++ "[Greedy Eval] Layout: ")%string;
               Fmt "" (VStr layout)]
      :: emitted (setup X layout pw vw s) ++
         [EvEval agent env true true (Some (greedy_gif_path layout))
            (Ok reward);
          EvPrint [Lit "Greedy reward on "; Fmt "" (VStr layout);
                   Lit ": "; Fmt ".2f" (VNum (Num reward))]].
Proof.
  intros Hok. pose proof (greedy_body_run X pw vw results layout s) as H.
  cbv zeta in H.
  destruct (res (setup X layout pw vw s)) as [[env agent]|e] eqn:Hsu.
  - destruct H as [(r & Hres & Hem)|(e & Hres & _)]; [|congruence].
    exists env, agent, r. rewrite Hres in Hok. injection Hok as <-. auto.
  - destruct H as [Hres _]. congruence.
Qed.

(** The readings of the record of a completed greedy pass. *)
Lemma greedy_body_ok_readings pw vw results layout s results' :
  res (greedy_body X pw vw results layout s) = Ok results' ->
  exists reward,
    results' = results ++ [(layout, reward, greedy_gif_path layout)] /\
    eval_rewards (emitted (greedy_body X pw vw results layout s)) =
      [reward] /\
    saved_gif_paths (emitted (greedy_body X pw vw results layout s)) =
      [greedy_gif_path layout] /\
    List.length
      (filter is_env (emitted (greedy_body X pw vw results layout s))) = 1 /\
    List.length
      (filter is_agent (emitted (greedy_body X pw vw results layout s))) = 1 /\
    List.length
      (filter is_eval (emitted (greedy_body X pw vw results layout s))) = 1.
Proof.
  intros Hok.
  destruct (greedy_body_ok _ _ _ _ _ _ Hok)
    as (env & agent & reward & Hsu & Hres & Hem).
  destruct (setup_ok X _ _ _ _ _ _ Hsu) as (_ & _ & _ & Hsuem).
  exists reward. rewrite Hem, Hsuem.
  split; [exact Hres|]. repeat split.
Qed.

End GreedySweepFacts.

(** X3.  A greedy sweep that completes ran exactly one episode per layout,
    on one environment and one agent constructed for it; the entry of each
    layout records the reward that episode returned and the very path the
    episode was asked to save its GIF under, which is
    [demo/generalization/<layout>_eval_greedy.gif]. *)
Theorem greedy_sweep_records {W : Type} (X : Externals W) :
  forall layouts pw vw s results,
    res (greedy_sweep X layouts pw vw s) = Ok results ->
    let t := emitted (greedy_sweep X layouts pw vw s) in
    map greedy_reward results = eval_rewards t /\
    map greedy_recorded_gif results = saved_gif_paths t /\
    saved_gif_paths t = map greedy_gif_path layouts /\
    List.length (filter is_env t) = List.length layouts /\
    List.length (filter is_agent t) = List.length layouts /\
    List.length (filter is_eval t) = List.length layouts.
Proof.
  intros layouts pw vw s results Hok. cbv zeta. unfold greedy_sweep in *.
  assert (Hgif : map greedy_recorded_gif results =
                 saved_gif_paths
                   (emitted (for_in layouts (greedy_body X pw vw) [] s))).
  { apply (for_in_ok_trace (map greedy_recorded_gif) saved_gif_paths)
      with (acc' := results) in Hok; auto using saved_gif_paths_app.
    intros acc x s' acc' H.
    destruct (greedy_body_ok_readings X _ _ _ _ _ _ H)
      as (reward & -> & _ & -> & _). now rewrite map_app. }
  split; [|split; [exact Hgif|split; [|repeat split]]].
  - apply (for_in_ok_trace (map greedy_reward) eval_rewards)
      with (acc' := results) in Hok; auto using eval_rewards_app.
    intros acc x s' acc' H.
    destruct (greedy_body_ok_readings X _ _ _ _ _ _ H)
      as (reward & -> & -> & _). now rewrite map_app.
  - rewrite <- Hgif.
    apply (for_in_ok_proj (map greedy_recorded_gif) greedy_gif_path)
      with (acc' := results) in Hok; [exact Hok|].
    intros acc x s' acc' H.
    destruct (greedy_body_ok_readings X _ _ _ _ _ _ H)
      as (reward & -> & _). now rewrite map_app.
  - rewrite <- (Nat.mul_1_r (List.length layouts)).
    apply (for_in_ok_sum (fun t => List.length (filter is_env t)) 1)
      with (acc' := results); auto using count_app.
    intros acc x s' acc' H.
    now destruct (greedy_body_ok_readings X _ _ _ _ _ _ H)
      as (reward & _ & _ & _ & -> & _).
  - rewrite <- (Nat.mul_1_r (List.length layouts)).
    apply (for_in_ok_sum (fun t => List.length (filter is_agent t)) 1)
      with (acc' := results); auto using count_app.
    intros acc x s' acc' H.
    now destruct (greedy_body_ok_readings X _ _ _ _ _ _ H)
      as (reward & _ & _ & _ & _ & -> & _).
  - rewrite <- (Nat.mul_1_r (List.length layouts)).
    apply (for_in_ok_sum (fun t => List.length (filter is_eval t)) 1)
      with (acc' := results); auto using count_app.
    intros acc x s' acc' H.
    now destruct (greedy_body_ok_readings X _ _ _ _ _ _ H)
      as (reward & _ & _ & _ & _ & _ & ->).
Qed.

Lemma greedy_sweep_records_witness :
  exists results,
    res (cell_greedy demo_world start) = Ok results /\
    map greedy_reward results =
      eval_rewards (emitted (cell_greedy demo_world start)) /\
    map greedy_recorded_gif results =
      saved_gif_paths (emitted (cell_greedy demo_world start)) /\
    saved_gif_paths (emitted (cell_greedy demo_world start)) =
      map greedy_gif_path test_layouts /\
    List.length (filter is_env (emitted (cell_greedy demo_world start))) =
      List.length test_layouts /\
    List.length (filter is_agent (emitted (cell_greedy demo_world start))) =
      List.length test_layouts /\
    List.length (filter is_eval (emitted (cell_greedy demo_world start))) =
      List.length test_layouts.
Proof.
  eexists. split; [vm_compute; reflexivity|].
  eapply (greedy_sweep_records demo_world test_layouts policy_weights
            value_weights start).
  vm_compute; reflexivity.
Defined.

(* ================================================================== *)
(** * The sampling sweep: GIF paths, and the empty run loop *)

Section SamplingSweepFacts.

Context {W : Type} (X : Externals W).

Lemma run_events_saved agent env layout rewards :
  forall i,
    saved_gif_paths (run_events agent env layout i (map Ok rewards)) =
    match rewards with
    | [] => []
    | _ => if i =? 0 then [sampling_gif_path layout] else []
    end.
Proof.
  induction rewards as [|r rs IH]; intros i; [reflexivity|].
  cbn [map run_events]. destruct i as [|i]; cbn [Nat.eqb saved_gif_paths].
  - rewrite IH. now destruct rs.
  - rewrite IH. now destruct rs.
Qed.

(** The readings of the record of a completed sampling pass. *)
Lemma sampling_body_ok_readings n pw vw results layout s results' :
  res (sampling_body X n pw vw results layout s) = Ok results' ->
  exists rewards,
    List.length rewards = n /\
    results' =
      results ++
      [(layout, np_mean rewards, np_std rewards,
        sampling_recorded_path layout)] /\
    eval_rewards (emitted (sampling_body X n pw vw results layout s)) =
      rewards /\
    saved_gif_paths (emitted (sampling_body X n pw vw results layout s)) =
      (if n =? 0 then [] else [sampling_gif_path layout]) /\
    printed (emitted (sampling_body X n pw vw results layout s)) =
      [[Lit (nl ++ "[Sampling Eval] Layout: ")%string; Fmt "" (VStr layout)];
       [Lit "Sampling eval on "; Fmt "" (VStr layout); Lit ": mean=";
        Fmt ".2f" (VNum (np_mean rewards)); Lit " ± ";
        Fmt ".2f" (VNum (np_std rewards))]].
Proof.
  intros Hok.
  destruct (sampling_body_ok X _ _ _ _ _ _ _ Hok)
    as (env & agent & rewards & Hsu & Hlen & Hres & Hem).
  destruct (setup_ok X _ _ _ _ _ _ Hsu) as (_ & _ & _ & Hsuem).
  exists rewards. rewrite Hem, Hsuem.
  split; [exact Hlen|]. split; [exact Hres|].
  cbn [app eval_rewards saved_gif_paths printed].
  rewrite eval_rewards_app, saved_gif_paths_app, printed_app.
  rewrite run_events_rewards, run_events_saved.
  cbn [eval_rewards saved_gif_paths printed].
  rewrite app_nil_r. split; [reflexivity|]. split.
  - subst n. destruct rewards; reflexivity.
  - f_equal.
    assert (Hp : forall i rs,
               printed (run_events agent env layout i rs) = []).
    { intros i rs. revert i.
      induction rs as [|r rs IH]; intros i; simpl; auto. }
    now rewrite Hp.
Qed.

(** On success, a reading of the record that distributes over
    concatenation and is [[g x]] on every successful pass is [map g] of the
    list. *)
Lemma for_in_ok_reading {A S B} (f : list event -> list B) (g : A -> B)
    (body : S -> A -> M W S) :
  f [] = [] ->
  (forall t1 t2, f (t1 ++ t2) = f t1 ++ f t2) ->
  (forall acc x s acc',
      res (body acc x s) = Ok acc' -> f (emitted (body acc x s)) = [g x]) ->
  forall xs acc s acc',
    res (for_in xs body acc s) = Ok acc' ->
    f (emitted (for_in xs body acc s)) = map g xs.
Proof.
  intros Hnil Happ Hbody.
  induction xs as [|x xs IH]; intros acc s acc'; simpl; [auto|].
  rewrite bind_res, bind_emitted, Happ.
  destruct (res (body acc x s)) eqn:E; [|discriminate].
  intros H. now rewrite (Hbody _ _ _ _ E), (IH _ _ _ H).
Qed.

End SamplingSweepFacts.

(** X4.  A sampling sweep with at least one run per layout that completes
    saved exactly one GIF per layout, under
    [demo/generalization/<layout>_eval_sampling.gif], in the order of the
    layouts; the entries record [generalization/<layout>/eval_sampling.gif],
    and no entry records a path that a GIF was saved under. *)
Theorem sampling_sweep_gifs {W : Type} (X : Externals W) :
  forall n_runs layouts pw vw s results,
    0 < n_runs ->
    res (sampling_sweep X n_runs layouts pw vw s) = Ok results ->
    let t := emitted (sampling_sweep X n_runs layouts pw vw s) in
    saved_gif_paths t = map sampling_gif_path layouts /\
    map sampling_recorded_gif results =
      map sampling_recorded_path layouts /\
    (forall r, In r results ->
               ~ In (sampling_recorded_gif r) (saved_gif_paths t)).
Proof.
  intros n_runs layouts pw vw s results Hn Hok. cbv zeta.
  assert (Hsaved : saved_gif_paths
                     (emitted (sampling_sweep X n_runs layouts pw vw s)) =
                   map sampling_gif_path layouts).
  { unfold sampling_sweep in *.
    apply (for_in_ok_reading saved_gif_paths sampling_gif_path)
      with (acc' := results); auto using saved_gif_paths_app.
    intros acc x s' acc' H.
    destruct (sampling_body_ok_readings X _ _ _ _ _ _ _ H)
      as (rewards & _ & _ & _ & -> & _).
    destruct n_runs; [lia | reflexivity]. }
  assert (Hrec : map sampling_recorded_gif results =
                 map sampling_recorded_path layouts).
  { unfold sampling_sweep in *.
    apply (for_in_ok_proj (map sampling_recorded_gif) sampling_recorded_path)
      with (acc' := results) in Hok; [exact Hok|].
    intros acc x s' acc' H.
    destruct (sampling_body_ok_readings X _ _ _ _ _ _ _ H)
      as (rewards & _ & -> & _). now rewrite map_app. }
  split; [exact Hsaved|]. split; [exact Hrec|].
  intros r Hr Hin. rewrite Hsaved in Hin.
  apply (in_map sampling_recorded_gif) in Hr. rewrite Hrec in Hr.
  apply in_map_iff in Hr. destruct Hr as (l1 & E1 & _).
  apply in_map_iff in Hin. destruct Hin as (l2 & E2 & _).
  rewrite <- E1 in E2. discriminate E2.
Qed.

Lemma sampling_sweep_gifs_witness :
  0 < 10 /\
  exists results,
    res (cell_sampling demo_world start) = Ok results /\
    saved_gif_paths (emitted (cell_sampling demo_world start)) =
      map sampling_gif_path test_layouts /\
    map sampling_recorded_gif results =
      map sampling_recorded_path test_layouts /\
    (forall r, In r results ->
               ~ In (sampling_recorded_gif r)
                    (saved_gif_paths (emitted (cell_sampling demo_world start)))).
Proof.
  split; [lia|]. eexists. split; [vm_compute; reflexivity|].
  eapply (sampling_sweep_gifs demo_world N_RUNS test_layouts policy_weights
            value_weights start);
    [unfold N_RUNS; lia | vm_compute; reflexivity].
Defined.

(** X5.  With no run at all ([N_RUNS = 0]) a pass of the sampling loop
    whose set-up completes does not fail: it runs no episode, saves no GIF,
    and records [nan] for the mean and for the standard deviation. *)
Theorem sampling_without_runs {W : Type} (X : Externals W) :
  forall pw vw results layout s env agent,
    res (setup X layout pw vw s) = Ok (env, agent) ->
    res (sampling_body X 0 pw vw results layout s) =
      Ok (results ++ [(layout, NaN, NaN, sampling_recorded_path layout)]) /\
    filter is_eval (emitted (sampling_body X 0 pw vw results layout s)) =
      [] /\
    saved_gif_paths (emitted (sampling_body X 0 pw vw results layout s)) =
      [].
Proof.
  intros pw vw results layout s env agent Hsu.
  pose proof (sampling_body_run X 0 pw vw results layout s) as H.
  cbv zeta in H. rewrite Hsu in H.
  destruct H as [(rs & Hlen & Hres & Hem)|(rs & e & Hlen & _)]; [|lia].
  destruct rs; [|discriminate Hlen].
  split; [exact Hres|].
  destruct (sampling_body_ok_readings X _ _ _ _ _ _ _ Hres)
    as (rewards & _ & _ & _ & Hsaved & _).
  split; [|exact Hsaved].
  destruct (setup_ok X _ _ _ _ _ _ Hsu) as (_ & _ & _ & Hsuem).
  rewrite Hem, Hsuem. reflexivity.
Qed.

Lemma sampling_without_runs_witness :
  res (setup demo_world "cramped_room" policy_weights value_weights start) =
    Ok (first_env, first_agent) /\
  res (sampling_body demo_world 0 policy_weights value_weights []
         "cramped_room" start) =
    Ok ([] ++ [("cramped_room", NaN, NaN,
                sampling_recorded_path "cramped_room")]) /\
  filter is_eval
    (emitted (sampling_body demo_world 0 policy_weights value_weights []
                "cramped_room" start)) = [] /\
  saved_gif_paths
    (emitted (sampling_body demo_world 0 policy_weights value_weights []
                "cramped_room" start)) = [].
Proof.
  assert (H : res (setup demo_world "cramped_room" policy_weights
                     value_weights start) = Ok (first_env, first_agent))
    by (vm_compute; reflexivity).
  split; [exact H|].
  exact (sampling_without_runs demo_world policy_weights value_weights []
           "cramped_room" start first_env first_agent H).
Defined.

(* ================================================================== *)
(** * Every episode run, on every outcome *)

Section RunFacts.

Context {W : Type} (X : Externals W).

Lemma eval_free_Forall (P : event -> Prop) (t : list event) :
  (forall ev, is_eval ev = false -> P ev) ->
  filter is_eval t = [] -> Forall P t.
Proof.
  intros HP. induction t as [|ev t IH]; intros H; [constructor|].
  cbn [filter] in H. destruct (is_eval ev) eqn:E; [discriminate|].
  constructor; auto.
Qed.

Lemma eval_free_rewards (t : list event) :
  filter is_eval t = [] -> eval_rewards t = [].
Proof.
  induction t as [|ev t IH]; intros H; [reflexivity|].
  destruct ev; cbn in *; auto. discriminate H.
Qed.

Lemma run_events_sampling_ok agent env layout rs :
  env_layouts env = [layout] ->
  forall i, Forall sampling_run_ok (run_events agent env layout i rs).
Proof.
  intros Hl. induction rs as [|r rs IH]; intros i; cbn [run_events];
    constructor; auto.
  exists layout. split; [exact Hl|]. split; [reflexivity|].
  destruct (i =? 0); auto.
Qed.

Lemma run_events_printed agent env layout rs :
  forall i, printed (run_events agent env layout i rs) = [].
Proof. induction rs as [|r rs IH]; intros i; simpl; auto. Qed.

Lemma setup_printed layout pw vw s :
  printed (emitted (setup X layout pw vw s)) = [].
Proof.
  unfold setup, GeneralizedOvercooked, PPOAgent, forward, load_weights,
    bind, ret, extcall.
  cbn.
  repeat match goal with
         | |- context [match ?c with pair _ _ => _ end] =>
             destruct c as [[?|?] ?]; cbn
         end; reflexivity.
Qed.

Lemma greedy_body_runs_ok pw vw results layout s :
  Forall greedy_run_ok (emitted (greedy_body X pw vw results layout s)).
Proof.
  pose proof (greedy_body_run X pw vw results layout s) as H.
  cbv zeta in H.
  assert (Hsu : Forall greedy_run_ok (emitted (setup X layout pw vw s))).
  { apply eval_free_Forall; [|apply setup_eval_free].
    intros ev Hev. destruct ev; try exact I. discriminate. }
  destruct (res (setup X layout pw vw s)) as [[env agent]|e] eqn:E.
  - destruct (setup_ok X _ _ _ _ _ _ E) as (_ & Hl & _).
    destruct H as [(r & _ & ->)|(e & _ & ->)];
      (constructor; [exact I|]); apply Forall_app; (split; [exact Hsu|]);
      repeat constructor; exists layout; auto.
  - destruct H as [_ ->]. constructor; [exact I | exact Hsu].
Qed.

Lemma sampling_body_runs_ok n pw vw results layout s :
  Forall sampling_run_ok (emitted (sampling_body X n pw vw results layout s)).
Proof.
  pose proof (sampling_body_run X n pw vw results layout s) as H.
  cbv zeta in H.
  assert (Hsu : Forall sampling_run_ok (emitted (setup X layout pw vw s))).
  { apply eval_free_Forall; [|apply setup_eval_free].
    intros ev Hev. destruct ev; try exact I. discriminate. }
  destruct (res (setup X layout pw vw s)) as [[env agent]|e] eqn:E.
  - destruct (setup_ok X _ _ _ _ _ _ E) as (_ & Hl & _).
    destruct H as [(rs & _ & _ & ->)|(rs & e & _ & _ & ->)];
      (constructor; [exact I|]); apply Forall_app; (split; [exact Hsu|]).
    + apply Forall_app. split; [now apply run_events_sampling_ok|].
      repeat constructor.
    + now apply run_events_sampling_ok.
  - destruct H as [_ ->]. constructor; [exact I | exact Hsu].
Qed.

End RunFacts.

(** X8.  On every outcome of a sweep, each episode run is made in an
    environment built for a single layout and is asked to save its GIF only
    under that layout's own path: in the greedy sweep every run is greedy
    and saves under [demo/generalization/<layout>_eval_greedy.gif]; in the
    sampling sweep every run samples and either saves under
    [demo/generalization/<layout>_eval_sampling.gif] or saves nothing and is
    given no path. *)
Theorem gif_names_follow_environment {W : Type} (X : Externals W) :
  forall s,
    (forall layouts pw vw,
        Forall greedy_run_ok (emitted (greedy_sweep X layouts pw vw s))) /\
    (forall n_runs layouts pw vw,
        Forall sampling_run_ok
          (emitted (sampling_sweep X n_runs layouts pw vw s))).
Proof.
  intros s. split.
  - intros layouts pw vw. unfold greedy_sweep.
    apply (for_in_emitted (Forall greedy_run_ok)); [constructor | |].
    + intros t1 t2 H1 H2. apply Forall_app; auto.
    + intros. apply greedy_body_runs_ok.
  - intros n_runs layouts pw vw. unfold sampling_sweep.
    apply (for_in_emitted (Forall sampling_run_ok)); [constructor | |].
    + intros t1 t2 H1 H2. apply Forall_app; auto.
    + intros. apply sampling_body_runs_ok.
Qed.

(** X9.  A pass of the sampling loop that raises, in its set-up or in any
    of its runs, prints nothing but its header: no statistics are computed
    from the runs that did return, and fewer than all the runs, or none,
    returned a reward. *)
Theorem no_partial_statistics {W : Type} (X : Externals W) :
  forall n_runs pw vw results layout s e,
    res (sampling_body X n_runs pw vw results layout s) = Raise e ->
    printed (emitted (sampling_body X n_runs pw vw results layout s)) =
      [[Lit (nl ++ "[Sampling Eval] Layout: ")%string;
        Fmt "" (VStr layout)]] /\
    (List.length
       (eval_rewards
          (emitted (sampling_body X n_runs pw vw results layout s))) <
     n_runs \/
     eval_rewards (emitted (sampling_body X n_runs pw vw results layout s)) =
       []).
Proof.
  intros n_runs pw vw results layout s e Hr.
  pose proof (sampling_body_run X n_runs pw vw results layout s) as H.
  cbv zeta in H.
  pose proof (setup_printed X layout pw vw s) as Hp.
  pose proof (setup_eval_free X layout pw vw s) as Hfree.
  pose proof (eval_free_rewards _ Hfree) as Hrew.
  destruct (res (setup X layout pw vw s)) as [[env agent]|e0].
  - destruct H as [(rs & _ & Hres & _)|(rs & e1 & Hlen & _ & ->)];
      [congruence|].
    cbn [printed eval_rewards].
    rewrite printed_app, eval_rewards_app, Hp, Hrew, run_events_printed.
    rewrite run_events_app, eval_rewards_app, run_events_rewards.
    cbn. rewrite app_nil_r. split; [reflexivity | left; exact Hlen].
  - destruct H as [_ ->]. cbn [printed eval_rewards].
    rewrite Hp, Hrew. auto.
Qed.

(** In the flaky world the fourth run of the first layout raises: three
    rewards were returned and nothing but the header is printed. *)
Lemma no_partial_statistics_witness :
  res (sampling_body flaky_world 10 policy_weights value_weights []
         "cramped_room" start) = Raise "RuntimeError: environment crashed" /\
  printed
    (emitted (sampling_body flaky_world 10 policy_weights value_weights []
                "cramped_room" start)) =
    [[Lit (nl ++ "[Sampling Eval] Layout: ")%string;
      Fmt "" (VStr "cramped_room")]] /\
  (List.length
     (eval_rewards
        (emitted (sampling_body flaky_world 10 policy_weights value_weights
                    [] "cramped_room" start))) < 10 \/
   eval_rewards
     (emitted (sampling_body flaky_world 10 policy_weights value_weights []
                 "cramped_room" start)) = []).
Proof.
  assert (H : res (sampling_body flaky_world 10 policy_weights value_weights
                     [] "cramped_room" start) =
              Raise "RuntimeError: environment crashed")
    by (vm_compute; reflexivity).
  split; [exact H|].
  exact (no_partial_statistics flaky_world 10 policy_weights value_weights []
           "cramped_room" start _ H).
Defined.

(* ================================================================== *)
(** * The cells run in order *)

Section RunAllFacts.

Context {W : Type} (X : Externals W).

(** A property of records that holds of the empty record and of
    concatenations holds of a sequence when it holds of its two parts. *)
Lemma bind_emitted_closed {A B} (P : list event -> Prop)
    (m : M W A) (f : A -> M W B) (s : state W) :
  P [] ->
  (forall t1 t2, P t1 -> P t2 -> P (t1 ++ t2)) ->
  P (emitted (m s)) ->
  (forall a s', P (emitted (f a s'))) ->
  P (emitted (bind m f s)).
Proof.
  intros Hnil Happ Hm Hf. rewrite bind_emitted. apply Happ; [exact Hm|].
  destruct (res (m s)); [apply Hf | exact Hnil].
Qed.

Lemma report_events_app (t1 t2 : list event) :
  Forall is_report_event t1 -> Forall is_report_event t2 ->
  Forall is_report_event (t1 ++ t2).
Proof. intros H1 H2. apply Forall_app; auto. Qed.

Lemma show_gif_report path s :
  Forall is_report_event (emitted (show_gif X path s)).
Proof.
  rewrite show_gif_run.
  destruct (ext_exists X path (world s));
    [destruct (ext_display X path (world s))|]; repeat constructor.
Qed.

Lemma print_report l (s : state W) :
  Forall is_report_event (emitted (@print W l s)).
Proof. repeat constructor. Qed.

Ltac report :=
  repeat first
    [ apply print_report
    | apply show_gif_report
    | apply (bind_emitted_closed (Forall is_report_event));
      [constructor | exact report_events_app | | intros ? ?]
    | apply (for_in_emitted (Forall is_report_event));
      [constructor | exact report_events_app | intros ? ? ?]
    | match goal with
      | |- context [match ?x with pair _ _ => _ end] => destruct x
      end ].

Lemma cell_cramped_room_show_report reward gif s :
  Forall is_report_event (emitted (cell_cramped_room_show X reward gif s)).
Proof. unfold cell_cramped_room_show. report. Qed.

Lemma cell_greedy_show_report results s :
  Forall is_report_event (emitted (cell_greedy_show X results s)).
Proof. unfold cell_greedy_show, greedy_gif_listing. report. Qed.

Lemma cell_sampling_show_report results s :
  Forall is_report_event (emitted (cell_sampling_show X results s)).
Proof. unfold cell_sampling_show, sampling_gif_listing. report. Qed.

Lemma report_evals_after_loads (t : list event) :
  Forall is_report_event t ->
  forall lp lv, evals_after_loads lp lv t.
Proof.
  induction 1 as [|ev t Hev _ IH]; intros lp lv; [exact I|].
  destruct ev; try contradiction; apply IH.
Qed.

Lemma report_dims_ok (t : list event) :
  Forall is_report_event t -> forall prev, dims_ok prev t.
Proof.
  induction 1 as [|ev t Hev _ IH]; intros prev; [exact I|].
  split; [|apply IH]. destruct ev; try contradiction; exact I.
Qed.

(** [show_gif] raises only what its display raises, as its last call. *)
Lemma stops_show_gif path s : stops_at_raise (show_gif X path s).
Proof.
  rewrite show_gif_run.
  destruct (ext_exists X path (world s));
    [destruct (ext_display X path (world s)) as [u|e0]|];
    intros pre ev post e H Hev; cbn [emitted] in H;
    destruct pre as [|? [|? [|? ?]]]; try discriminate H;
    injection H as <- <-; try subst; cbn in Hev;
    first [discriminate Hev | injection Hev as <-; auto].
Qed.

Ltac report_stops :=
  repeat first
    [ apply stops_at_raise_ret
    | apply stops_print
    | apply stops_show_gif
    | apply stops_at_raise_for_in; intros ? ? ?
    | apply stops_at_raise_bind; [|intros ? ?]
    | match goal with
      | |- context [match ?x with pair _ _ => _ end] => destruct x
      end ].

Lemma stops_cell_cramped_room_show reward gif s :
  stops_at_raise (cell_cramped_room_show X reward gif s).
Proof. unfold cell_cramped_room_show. report_stops. Qed.

Lemma stops_cell_greedy_show results s :
  stops_at_raise (cell_greedy_show X results s).
Proof. unfold cell_greedy_show, greedy_gif_listing. report_stops. Qed.

Lemma stops_cell_sampling_show results s :
  stops_at_raise (cell_sampling_show X results s).
Proof. unfold cell_sampling_show, sampling_gif_listing. report_stops. Qed.

End RunAllFacts.

(** X10.  Running the cells of the notebook in order keeps, over the whole
    run and on every outcome, what each evaluation section keeps: every
    episode run comes after successful loads of both networks of its agent,
    every agent is built right after an environment from its dimensions,
    and the first call that raises is the last call made, its exception
    being the outcome of the run; this holds of the calls of the
    evaluation sections and of a [display] that raises in a reporting
    cell alike. *)
Theorem run_all_invariants {W : Type} (X : Externals W) :
  forall s,
    loads_precede_evals (emitted (notebook X s)) /\
    built_from_env (emitted (notebook X s)) /\
    stops_at_raise (notebook X s).
Proof.
  intros s. split; [|split].
  - apply evals_after_loads_precede. unfold notebook.
    apply (bind_emitted_closed (evals_after_loads [] []));
      [exact I | intros t1 t2; apply evals_after_loads_app
      | apply cell_cramped_room_invariants | intros [[rs reward] gif] s1].
    apply (bind_emitted_closed (evals_after_loads [] []));
      [exact I | intros t1 t2; apply evals_after_loads_app
      | apply report_evals_after_loads, cell_cramped_room_show_report
      | intros _ s2].
    apply (bind_emitted_closed (evals_after_loads [] []));
      [exact I | intros t1 t2; apply evals_after_loads_app
      | apply greedy_sweep_invariants | intros results_greedy s3].
    apply (bind_emitted_closed (evals_after_loads [] []));
      [exact I | intros t1 t2; apply evals_after_loads_app
      | apply report_evals_after_loads, cell_greedy_show_report
      | intros _ s4].
    apply (bind_emitted_closed (evals_after_loads [] []));
      [exact I | intros t1 t2; apply evals_after_loads_app
      | apply sampling_sweep_invariants | intros results_sampling s5].
    apply report_evals_after_loads, cell_sampling_show_report.
  - apply dims_ok_built_from_env. unfold notebook.
    apply (bind_emitted_closed (dims_ok None));
      [exact I | intros t1 t2; apply dims_ok_app
      | apply cell_cramped_room_invariants | intros [[rs reward] gif] s1].
    apply (bind_emitted_closed (dims_ok None));
      [exact I | intros t1 t2; apply dims_ok_app
      | apply report_dims_ok, cell_cramped_room_show_report
      | intros _ s2].
    apply (bind_emitted_closed (dims_ok None));
      [exact I | intros t1 t2; apply dims_ok_app
      | apply greedy_sweep_invariants | intros results_greedy s3].
    apply (bind_emitted_closed (dims_ok None));
      [exact I | intros t1 t2; apply dims_ok_app
      | apply report_dims_ok, cell_greedy_show_report
      | intros _ s4].
    apply (bind_emitted_closed (dims_ok None));
      [exact I | intros t1 t2; apply dims_ok_app
      | apply sampling_sweep_invariants | intros results_sampling s5].
    apply report_dims_ok, cell_sampling_show_report.
  - unfold notebook.
    apply stops_at_raise_bind;
      [apply stops_cell_cramped_room | intros [[rs reward] gif] s1].
    apply stops_at_raise_bind;
      [apply stops_cell_cramped_room_show | intros _ s2].
    apply stops_at_raise_bind;
      [apply stops_greedy_sweep | intros results_greedy s3].
    apply stops_at_raise_bind;
      [apply stops_cell_greedy_show | intros _ s4].
    apply stops_at_raise_bind;
      [apply stops_sampling_sweep | intros results_sampling s5].
    apply stops_cell_sampling_show.
Qed.



(* ================================================================== *)
(** * How agents are configured and warmed up *)

Section WarmupFacts.

Context {W : Type} (X : Externals W).

Lemma warmup_ok_any_prev (t : list event) (prev : option event) :
  warmup_ok None t -> warmup_ok prev t.
Proof.
  destruct t as [|ev t]; simpl; [auto|]. intros [H1 H2]. split; [|exact H2].
  destruct ev; simpl in *; auto.
  - destruct net.
    + destruct H1 as (_ & o & n & arch & sh & dc & H). discriminate H.
    + destruct H1 as (_ & H). discriminate H.
  - destruct net.
    + discriminate H1.
    + destruct H1 as (path' & H). discriminate H.
Qed.

Lemma warmup_ok_app (t1 t2 : list event) :
  forall prev,
    warmup_ok prev t1 -> warmup_ok None t2 -> warmup_ok prev (t1 ++ t2).
Proof.
  induction t1 as [|ev t1 IH]; intros prev H1 H2; simpl in *.
  - now apply warmup_ok_any_prev.
  - destruct H1 as [H H1]. split; auto.
Qed.

Lemma warmup_ok_split (pre : list event) :
  forall prev t ev post,
    warmup_ok prev t -> t = pre ++ ev :: post ->
    warmup_at (last (map Some pre) prev) ev.
Proof.
  induction pre as [|x pre IH]; intros prev t ev post H ->; simpl in H.
  - apply H.
  - destruct H as [_ H]. specialize (IH _ _ ev post H eq_refl).
    destruct pre as [|y pre]; [exact IH|].
    change (map Some (x :: y :: pre)) with (Some x :: map Some (y :: pre)).
    change (last (Some x :: map Some (y :: pre)) prev)
      with (last (map Some (y :: pre)) prev).
    simpl map in *. now rewrite (last_cons_default _ _ prev (Some x)).
Qed.

Lemma last_some_split (pre : list event) (x : event) :
  last (map Some pre) None = Some x -> exists pre', pre = pre' ++ [x].
Proof.
  destruct pre as [|y pre] using rev_ind; [discriminate|].
  rewrite map_app. cbn [map]. rewrite last_last. intros [= ->]. eauto.
Qed.

Lemma warmup_built_before_load (t : list event) :
  warmup_ok None t -> built_before_load t.
Proof.
  intros H pre net a path r post E.
  pose proof (warmup_ok_split pre None t _ post H E) as D.
  destruct net; cbn in D.
  - apply last_some_split in D. destruct D as [pre1 ->].
    rewrite <- app_assoc in E. cbn [app] in E.
    pose proof (warmup_ok_split pre1 None t _ _ H E) as D1. cbn in D1.
    destruct D1 as [_ D1]. apply last_some_split in D1.
    destruct D1 as [pre2 ->].
    rewrite !in_app_iff. left. right. now left.
  - destruct D as [path' D]. apply last_some_split in D.
    destruct D as [pre1 ->].
    rewrite <- app_assoc in E. cbn [app] in E.
    pose proof (warmup_ok_split pre1 None t _ _ H E) as D1. cbn in D1.
    apply last_some_split in D1. destruct D1 as [pre2 ->].
    rewrite !in_app_iff. left. right. now left.
Qed.

Lemma report_warmup_ok (t : list event) :
  Forall is_report_event t -> forall prev, warmup_ok prev t.
Proof.
  induction 1 as [|ev t Hev _ IH]; intros prev; [exact I|].
  split; [|apply IH]. destruct ev; try contradiction; exact I.
Qed.

Lemma run_events_warmup_ok agent env layout rs :
  forall i prev tail,
    (forall p, warmup_ok p tail) ->
    warmup_ok prev (run_events agent env layout i rs ++ tail).
Proof.
  induction rs as [|r rs IH]; intros i prev tail Ht; simpl; auto.
Qed.

Lemma run_events_config pw vw agent env layout rs :
  forall i, Forall (config_ok pw vw) (run_events agent env layout i rs).
Proof.
  induction rs as [|r rs IH]; intros i; cbn [run_events]; constructor;
    [exact I | apply IH].
Qed.

Ltac exec_setup :=
  unfold setup, GeneralizedOvercooked, PPOAgent, forward, load_weights,
    bind, ret, extcall;
  cbn;
  repeat match goal with
         | |- context [match ?c with pair _ _ => _ end] =>
             destruct c as [[?|?] ?]; cbn
         end;
  repeat match goal with u : unit |- _ => destruct u end.

Lemma setup_warmup_ok layout pw vw s prev :
  warmup_ok prev (emitted (setup X layout pw vw s)).
Proof. exec_setup; repeat split; eauto 10. Qed.

Lemma setup_config layout pw vw s :
  Forall (config_ok pw vw) (emitted (setup X layout pw vw s)).
Proof. exec_setup; repeat constructor; cbn; eauto. Qed.

Lemma greedy_body_warmup_config pw vw results layout s :
  warmup_ok None (emitted (greedy_body X pw vw results layout s)) /\
  Forall (config_ok pw vw) (emitted (greedy_body X pw vw results layout s)).
Proof.
  pose proof (greedy_body_run X pw vw results layout s) as H.
  cbv zeta in H.
  pose proof (setup_warmup_ok layout pw vw s) as Hw.
  pose proof (setup_config layout pw vw s) as Hc.
  destruct (res (setup X layout pw vw s)) as [[env agent]|e].
  - destruct H as [(r & _ & ->)|(e & _ & ->)]; split;
      try (split; [exact I|]; apply warmup_ok_app; [apply Hw|];
           repeat split);
      try (constructor; [exact I|]; apply Forall_app; split; [exact Hc|];
           repeat constructor).
  - destruct H as [_ ->]. split.
    + split; [exact I | apply Hw].
    + constructor; [exact I | exact Hc].
Qed.

Lemma sampling_body_warmup_config n pw vw results layout s :
  warmup_ok None (emitted (sampling_body X n pw vw results layout s)) /\
  Forall (config_ok pw vw)
    (emitted (sampling_body X n pw vw results layout s)).
Proof.
  pose proof (sampling_body_run X n pw vw results layout s) as H.
  cbv zeta in H.
  pose proof (setup_warmup_ok layout pw vw s) as Hw.
  pose proof (setup_config layout pw vw s) as Hc.
  destruct (res (setup X layout pw vw s)) as [[env agent]|e].
  - destruct H as [(rs & _ & _ & ->)|(rs & e & _ & _ & ->)]; split.
    + split; [exact I|]. apply warmup_ok_app; [apply Hw|].
      apply run_events_warmup_ok. intros p. repeat split.
    + constructor; [exact I|]. apply Forall_app. split; [exact Hc|].
      apply Forall_app. split; [apply run_events_config|].
      repeat constructor.
    + split; [exact I|]. apply warmup_ok_app; [apply Hw|].
      rewrite <- (app_nil_r (run_events _ _ _ _ _)).
      apply run_events_warmup_ok. intros p. exact I.
    + constructor; [exact I|]. apply Forall_app. split; [exact Hc|].
      apply run_events_config.
  - destruct H as [_ ->]. split.
    + split; [exact I | apply Hw].
    + constructor; [exact I | exact Hc].
Qed.

Lemma cell_cramped_room_warmup_config s :
  warmup_ok None (emitted (cell_cramped_room X s)) /\
  Forall (config_ok policy_weights_cramped_room value_weights_cramped_room)
    (emitted (cell_cramped_room X s)).
Proof.
  pose proof (cell_cramped_room_run X s) as H. cbv zeta in H.
  pose proof (setup_warmup_ok "cramped_room" policy_weights_cramped_room
                value_weights_cramped_room s) as Hw.
  pose proof (setup_config "cramped_room" policy_weights_cramped_room
                value_weights_cramped_room s) as Hc.
  destruct (res (setup X _ _ _ s)) as [[env agent]|e].
  - destruct H as [(r & _ & ->)|(e & _ & ->)]; split;
      try (apply warmup_ok_app; [apply Hw|]; repeat split);
      try (apply Forall_app; split; [exact Hc|]; repeat constructor).
  - destruct H as [_ ->]. split; [apply Hw | exact Hc].
Qed.

End WarmupFacts.

(** X12.  On every outcome, a sweep configures every layout alike: each
    environment is requested for a single layout, each agent is constructed
    as the deep variant with reward shaping and decay, and for every agent
    the policy network is loaded from the sweep's policy checkpoint and the
    value network from its value checkpoint, never the other way round.
    The single-layout cell does the same with the cramped_room
    checkpoints. *)
Theorem uniform_configuration {W : Type} (X : Externals W) :
  forall s,
    Forall (config_ok policy_weights_cramped_room value_weights_cramped_room)
      (emitted (cell_cramped_room X s)) /\
    (forall layouts pw vw,
        Forall (config_ok pw vw) (emitted (greedy_sweep X layouts pw vw s))) /\
    (forall n_runs layouts pw vw,
        Forall (config_ok pw vw)
          (emitted (sampling_sweep X n_runs layouts pw vw s))).
Proof.
  intros s. split; [apply cell_cramped_room_warmup_config|]. split.
  - intros layouts pw vw. unfold greedy_sweep.
    apply (for_in_emitted (Forall (config_ok pw vw))); [constructor | |].
    + intros t1 t2 H1 H2. apply Forall_app; auto.
    + intros. apply greedy_body_warmup_config.
  - intros n_runs layouts pw vw. unfold sampling_sweep.
    apply (for_in_emitted (Forall (config_ok pw vw))); [constructor | |].
    + intros t1 t2 H1 H2. apply Forall_app; auto.
    + intros. apply sampling_body_warmup_config.
Qed.

(** X13.  In each evaluation section and in the whole run of the notebook,
    on every outcome, the weights of a network are loaded into an agent
    only after a forward pass of that very network, on an input of the
    agent's observation size, has returned: no load is attempted on a
    network that was not called first. *)
Theorem networks_called_before_load {W : Type} (X : Externals W) :
  forall s,
    built_before_load (emitted (cell_cramped_room X s)) /\
    (forall layouts pw vw,
        built_before_load (emitted (greedy_sweep X layouts pw vw s))) /\
    (forall n_runs layouts pw vw,
        built_before_load
          (emitted (sampling_sweep X n_runs layouts pw vw s))) /\
    built_before_load (emitted (notebook X s)).
Proof.
  intros s.
  assert (Hg : forall layouts pw vw s',
             warmup_ok None (emitted (greedy_sweep X layouts pw vw s'))).
  { intros layouts pw vw s'. unfold greedy_sweep.
    apply (for_in_emitted (warmup_ok None)); [exact I | |].
    - intros t1 t2. apply warmup_ok_app.
    - intros. apply greedy_body_warmup_config. }
  assert (Hs : forall n layouts pw vw s',
             warmup_ok None (emitted (sampling_sweep X n layouts pw vw s'))).
  { intros n layouts pw vw s'. unfold sampling_sweep.
    apply (for_in_emitted (warmup_ok None)); [exact I | |].
    - intros t1 t2. apply warmup_ok_app.
    - intros. apply sampling_body_warmup_config. }
  split; [|split; [|split]].
  - apply warmup_built_before_load, cell_cramped_room_warmup_config.
  - intros. apply warmup_built_before_load, Hg.
  - intros. apply warmup_built_before_load, Hs.
  - apply warmup_built_before_load. unfold notebook.
    apply (bind_emitted_closed (warmup_ok None));
      [exact I | intros t1 t2; apply warmup_ok_app
      | apply cell_cramped_room_warmup_config | intros [[rs reward] gif] s1].
    apply (bind_emitted_closed (warmup_ok None));
      [exact I | intros t1 t2; apply warmup_ok_app
      | apply report_warmup_ok, cell_cramped_room_show_report
      | intros _ s2].
    apply (bind_emitted_closed (warmup_ok None));
      [exact I | intros t1 t2; apply warmup_ok_app
      | apply Hg | intros results_greedy s3].
    apply (bind_emitted_closed (warmup_ok None));
      [exact I | intros t1 t2; apply warmup_ok_app
      | apply report_warmup_ok, cell_greedy_show_report
      | intros _ s4].
    apply (bind_emitted_closed (warmup_ok None));
      [exact I | intros t1 t2; apply warmup_ok_app
      | apply Hs | intros results_sampling s5].
    apply report_warmup_ok, cell_sampling_show_report.
Qed.

(* ================================================================== *)
(** * Sweeping in batches *)

Section BatchFacts.

Context {W : Type} (X : Externals W).

Lemma with_result_bind {A B C} (g : B -> C) (m : M W A) (k : A -> M W B)
    (s : state W) :
  with_result g (bind m k s) =
  bind m (fun a s' => with_result g (k a s')) s.
Proof.
  unfold bind. destruct (m s) as [[a|e] s' t]; [|reflexivity].
  destruct (k a s') as [[b|e] s'' t']; reflexivity.
Qed.

Lemma bind_with_result {A B C} (g : A -> B) (m : M W A) (k : B -> M W C)
    (s : state W) :
  bind (fun s0 => with_result g (m s0)) k s = bind m (fun a => k (g a)) s.
Proof.
  unfold bind. destruct (m s) as [[a|e] s' t]; reflexivity.
Qed.

Lemma with_result_compose {A B C} (g : A -> B) (h : B -> C)
    (o : outcome W A) :
  with_result h (with_result g o) = with_result (fun a => h (g a)) o.
Proof. destruct o as [[a|e] s t]; reflexivity. Qed.

Lemma with_result_ext {A B} (g h : A -> B) (o : outcome W A) :
  (forall a, g a = h a) -> with_result g o = with_result h o.
Proof. intros H. destruct o as [[a|e] s t]; cbn; now rewrite ?H. Qed.

(** A pass of the greedy loop only appends to the entries it is given. *)
Lemma greedy_body_appends pw vw acc layout s :
  greedy_body X pw vw acc layout s =
  with_result (app acc) (greedy_body X pw vw [] layout s).
Proof.
  unfold greedy_body.
  rewrite with_result_bind. apply bind_ext. intros _ s1.
  rewrite with_result_bind. apply bind_ext. intros [env agent] s2.
  rewrite with_result_bind. apply bind_ext. intros reward s3.
  rewrite with_result_bind. apply bind_ext. intros _ s4.
  reflexivity.
Qed.

(** A pass of the sampling loop only appends to the entries it is given. *)
Lemma sampling_body_appends n pw vw acc layout s :
  sampling_body X n pw vw acc layout s =
  with_result (app acc) (sampling_body X n pw vw [] layout s).
Proof.
  unfold sampling_body.
  rewrite with_result_bind. apply bind_ext. intros _ s1.
  rewrite with_result_bind. apply bind_ext. intros [env agent] s2.
  rewrite with_result_bind. apply bind_ext. intros rewards s3.
  rewrite with_result_bind. apply bind_ext. intros _ s4.
  reflexivity.
Qed.

(** A loop whose passes only append to what they are given does the
    same. *)
Lemma for_in_appends {A B} (body : list B -> A -> M W (list B)) :
  (forall acc x s,
      body acc x s = with_result (app acc) (body [] x s)) ->
  forall xs acc s,
    for_in xs body acc s = with_result (app acc) (for_in xs body [] s).
Proof.
  intros Hbody. induction xs as [|x xs IH]; intros acc s.
  - cbn. now rewrite app_nil_r.
  - cbn [for_in]. unfold bind. rewrite Hbody.
    destruct (body [] x s) as [[r|e] s' t]; cbn [with_result];
      [|reflexivity].
    rewrite (IH (acc ++ r)), (IH r).
    destruct (for_in xs body [] s') as [[r'|e'] s'' t'];
      cbn [with_result after]; [|reflexivity].
    now rewrite app_assoc.
Qed.

End BatchFacts.

Section BatchSweeps.

Context {W : Type} (X : Externals W).

Lemma for_in_batches {A B} (body : list B -> A -> M W (list B))
    (xs ys : list A) (s : state W) (r1 : list B) :
  (forall acc x s0,
      body acc x s0 = with_result (app acc) (body [] x s0)) ->
  res (for_in xs body [] s) = Ok r1 ->
  let o1 := for_in xs body [] s in
  let o2 := for_in ys body [] (final o1) in
  let o := for_in (xs ++ ys) body [] s in
  res o = match res o2 with
          | Ok r2 => Ok (r1 ++ r2)
          | Raise e => Raise e
          end /\
  emitted o = emitted o1 ++ emitted o2 /\
  final o = final o2.
Proof.
  intros Hbody Hok. cbv zeta. rewrite for_in_app. unfold bind.
  destruct (for_in xs body [] s) as [[r|e] s1 t1]; cbn in Hok;
    [|discriminate].
  injection Hok as ->. cbn [final emitted].
  rewrite (for_in_appends body Hbody ys r1 s1).
  destruct (for_in ys body [] s1) as [[r2|e] s2 t2]; cbn; auto.
Qed.

End BatchSweeps.

(** X14.  A sweep may be run in two batches.  When the sweep of the first
    layouts completes, the sweep of all the layouts makes exactly the calls
    of the first sweep followed by the calls of a sweep of the remaining
    layouts started where the first one ended; it ends in the same state,
    raises what that second sweep raises, and otherwise returns the entries
    of the first sweep followed by those of the second.  This holds of the
    greedy and of the sampling sweep. *)
Theorem sweep_in_batches {W : Type} (X : Externals W) :
  forall layouts1 layouts2 pw vw s,
    (forall r1,
        res (greedy_sweep X layouts1 pw vw s) = Ok r1 ->
        let o1 := greedy_sweep X layouts1 pw vw s in
        let o2 := greedy_sweep X layouts2 pw vw (final o1) in
        let o := greedy_sweep X (layouts1 ++ layouts2) pw vw s in
        res o = match res o2 with
                | Ok r2 => Ok (r1 ++ r2)
                | Raise e => Raise e
                end /\
        emitted o = emitted o1 ++ emitted o2 /\
        final o = final o2) /\
    (forall n_runs r1,
        res (sampling_sweep X n_runs layouts1 pw vw s) = Ok r1 ->
        let o1 := sampling_sweep X n_runs layouts1 pw vw s in
        let o2 := sampling_sweep X n_runs layouts2 pw vw (final o1) in
        let o := sampling_sweep X n_runs (layouts1 ++ layouts2) pw vw s in
        res o = match res o2 with
                | Ok r2 => Ok (r1 ++ r2)
                | Raise e => Raise e
                end /\
        emitted o = emitted o1 ++ emitted o2 /\
        final o = final o2).
Proof.
  intros layouts1 layouts2 pw vw s. split.
  - intros r1 Hok.
    exact (for_in_batches (greedy_body X pw vw) layouts1 layouts2 s r1
             (greedy_body_appends X pw vw) Hok).
  - intros n_runs r1 Hok.
    exact (for_in_batches (sampling_body X n_runs pw vw) layouts1 layouts2 s
             r1 (sampling_body_appends X n_runs pw vw) Hok).
Qed.

(** The notebook's three layouts, swept as one layout and then two, in the
    demo world. *)
Lemma sweep_in_batches_witness :
  (exists r1,
      res (greedy_sweep demo_world ["cramped_room"] policy_weights
             value_weights start) = Ok r1 /\
      res (greedy_sweep demo_world
             (["cramped_room"] ++
              ["asymmetric_advantages"; "forced_coordination"])
             policy_weights value_weights start) =
        match
          res (greedy_sweep demo_world
                 ["asymmetric_advantages"; "forced_coordination"]
                 policy_weights value_weights
                 (final (greedy_sweep demo_world ["cramped_room"]
                           policy_weights value_weights start)))
        with
        | Ok r2 => Ok (r1 ++ r2)
        | Raise e => Raise e
        end) /\
  (exists r1,
      res (sampling_sweep demo_world 10 ["cramped_room"] policy_weights
             value_weights start) = Ok r1 /\
      res (sampling_sweep demo_world 10
             (["cramped_room"] ++
              ["asymmetric_advantages"; "forced_coordination"])
             policy_weights value_weights start) =
        match
          res (sampling_sweep demo_world 10
                 ["asymmetric_advantages"; "forced_coordination"]
                 policy_weights value_weights
                 (final (sampling_sweep demo_world 10 ["cramped_room"]
                           policy_weights value_weights start)))
        with
        | Ok r2 => Ok (r1 ++ r2)
        | Raise e => Raise e
        end).
Proof.
  split.
  - eexists. split; [vm_compute; reflexivity|].
    eapply (proj1 (sweep_in_batches demo_world ["cramped_room"]
                     ["asymmetric_advantages"; "forced_coordination"]
                     policy_weights value_weights start)).
    vm_compute; reflexivity.
  - eexists. split; [vm_compute; reflexivity|].
    eapply (proj2 (sweep_in_batches demo_world ["cramped_room"]
                     ["asymmetric_advantages"; "forced_coordination"]
                     policy_weights value_weights start) 10).
    vm_compute; reflexivity.
Defined.

(** The policy load of the single-layout cell in the demo world comes after
    the forward pass of the policy network of the same agent. *)
Lemma networks_called_before_load_witness :
  exists pre post,
    emitted (cell_cramped_room demo_world start) =
      pre ++
      EvLoad PolicyNet first_agent policy_weights_cramped_room (Ok tt)
      :: post /\
    In (EvForward PolicyNet first_agent (agent_obs_dim first_agent) (Ok tt))
       pre.
Proof.
  exists (firstn 4 (emitted (cell_cramped_room demo_world start))),
    (skipn 5 (emitted (cell_cramped_room demo_world start))).
  assert (H : emitted (cell_cramped_room demo_world start) =
              firstn 4 (emitted (cell_cramped_room demo_world start)) ++
              EvLoad PolicyNet first_agent policy_weights_cramped_room
                (Ok tt)
              :: skipn 5 (emitted (cell_cramped_room demo_world start)))
    by (vm_compute; reflexivity).
  split; [exact H|].
  exact (proj1 (networks_called_before_load demo_world start) _ _ _ _ _ _ H).
Defined.

(* ================================================================== *)
(** * What the report cells print and display *)

Section ReportOutput.

Context {W : Type} (X : Externals W).

Lemma cell_sampling_show_run results s :
  cell_sampling_show X results s =
  after
    ([EvPrint [Lit (nl ++ "===== Sampling Evaluation Results =====")%string];
      EvPrint [Fmt "<25" (VStr "Layout"); Lit " | "; Fmt ">8" (VStr "Mean");
               Lit " | "; Fmt ">8" (VStr "Std")];
      EvPrint [Lit (str_mul "-" 46)]] ++
     map (fun r => EvPrint (sampling_row r)) results ++
     [EvPrint [Lit (nl ++ "=== Sampling Evaluation GIFs ===")%string]])
    (sampling_gif_listing X results s).
Proof.
  unfold cell_sampling_show.
  unfold bind at 1 2 3. unfold print at 1 2 3. cbn [after].
  unfold bind at 1.
  rewrite (rows_run sampling_row)
    by (intros u [[[layout m] sd] p] s'; reflexivity).
  unfold bind, print.
  destruct (sampling_gif_listing X results s) as [r s' t].
  cbn [after app]. now rewrite <- !app_assoc.
Qed.

Lemma cell_greedy_show_run results s :
  cell_greedy_show X results s =
  after
    ([EvPrint [Lit (nl ++ "===== Greedy Evaluation Results =====")%string];
      EvPrint [Fmt "<25" (VStr "Layout"); Lit " | ";
               Fmt ">8" (VStr "Reward")];
      EvPrint [Lit (str_mul "-" 36)]] ++
     map (fun r => EvPrint (greedy_row r)) results ++
     [EvPrint [Lit (nl ++ "=== Greedy Evaluation GIFs ===")%string]])
    (greedy_gif_listing X results s).
Proof.
  unfold cell_greedy_show.
  unfold bind at 1 2 3. unfold print at 1 2 3. cbn [after].
  unfold bind at 1.
  rewrite (rows_run greedy_row)
    by (intros u [[layout reward] p] s'; reflexivity).
  unfold bind, print.
  destruct (greedy_gif_listing X results s) as [r s' t].
  cbn [after app]. now rewrite <- !app_assoc.
Qed.

Lemma after_readings {A} (t : list event) (o : outcome W A) :
  res (after t o) = res o /\ final (after t o) = final o /\
  emitted (after t o) = t ++ emitted o.
Proof. now destruct o. Qed.

End ReportOutput.

(** X1.  The sampling report cell changes nothing and first prints the
    three header lines, one table row per entry of [results_sampling] in
    order (layout, mean, standard deviation as recorded) and the GIF
    header.  It then goes through the entries in order: it prints the
    layout name and, when no file exists at the recorded path, the
    complaint; when one exists it hands it to [display].  It returns
    exactly when every such display returns; otherwise it raises what the
    first failing display raised and stops there, the later entries being
    neither printed nor displayed. *)
Theorem sampling_report_output {W : Type} (X : Externals W) :
  forall results s,
    let o := cell_sampling_show X results s in
    let found := fun p => ext_exists X p (world s) in
    let showable := fun r =>
      found (sampling_recorded_gif r) = true ->
      ext_display X (sampling_recorded_gif r) (world s) = Ok tt in
    let table :=
      [[Lit (nl ++ "===== Sampling Evaluation Results =====")%string];
       [Fmt "<25" (VStr "Layout"); Lit " | "; Fmt ">8" (VStr "Mean");
        Lit " | "; Fmt ">8" (VStr "Std")];
       [Lit (str_mul "-" 46)]] ++
      map sampling_row results ++
      [[Lit (nl ++ "=== Sampling Evaluation GIFs ===")%string]] in
    let entry := fun r =>
      [Lit "Layout: "; Fmt "" (VStr (sampling_layout r))]
      :: gif_complaint (found (sampling_recorded_gif r))
           (sampling_recorded_gif r) in
    final o = s /\
    ((forall r, In r results -> showable r) -> res o = Ok tt) /\
    (res o = Ok tt ->
     (forall r, In r results -> showable r) /\
     printed (emitted o) = table ++ flat_map entry results /\
     displayed (emitted o) =
       filter found (map sampling_recorded_gif results)) /\
    (forall e,
        res o = Raise e ->
        exists results1 r results2,
          results = results1 ++ r :: results2 /\
          (forall r', In r' results1 -> showable r') /\
          found (sampling_recorded_gif r) = true /\
          ext_display X (sampling_recorded_gif r) (world s) = Raise e /\
          printed (emitted o) =
            table ++ flat_map entry results1 ++
            [[Lit "Layout: "; Fmt "" (VStr (sampling_layout r))]] /\
          displayed (emitted o) =
            filter found (map sampling_recorded_gif results1) ++
            [sampling_recorded_gif r]).
Proof.
  intros results s. cbv zeta.
  rewrite cell_sampling_show_run.
  destruct (after_readings
              ([EvPrint [Lit (nl ++ "===== Sampling Evaluation Results =====")%string];
                EvPrint [Fmt "<25" (VStr "Layout"); Lit " | ";
                         Fmt ">8" (VStr "Mean"); Lit " | ";
                         Fmt ">8" (VStr "Std")];
                EvPrint [Lit (str_mul "-" 46)]] ++
               map (fun r => EvPrint (sampling_row r)) results ++
               [EvPrint [Lit (nl ++ "=== Sampling Evaluation GIFs ===")%string]])
              (sampling_gif_listing X results s)) as (-> & -> & ->).
  assert (Htable :
            forall t,
              printed
                (([EvPrint [Lit (nl ++ "===== Sampling Evaluation Results =====")%string];
                   EvPrint [Fmt "<25" (VStr "Layout"); Lit " | ";
                            Fmt ">8" (VStr "Mean"); Lit " | ";
                            Fmt ">8" (VStr "Std")];
                   EvPrint [Lit (str_mul "-" 46)]] ++
                  map (fun r => EvPrint (sampling_row r)) results ++
                  [EvPrint [Lit (nl ++ "=== Sampling Evaluation GIFs ===")%string]])
                 ++ t) =
              ([[Lit (nl ++ "===== Sampling Evaluation Results =====")%string];
                [Fmt "<25" (VStr "Layout"); Lit " | "; Fmt ">8" (VStr "Mean");
                 Lit " | "; Fmt ">8" (VStr "Std")];
                [Lit (str_mul "-" 46)]] ++
               map sampling_row results ++
               [[Lit (nl ++ "=== Sampling Evaluation GIFs ===")%string]]) ++
              printed t /\
              displayed
                (([EvPrint [Lit (nl ++ "===== Sampling Evaluation Results =====")%string];
                   EvPrint [Fmt "<25" (VStr "Layout"); Lit " | ";
                            Fmt ">8" (VStr "Mean"); Lit " | ";
                            Fmt ">8" (VStr "Std")];
                   EvPrint [Lit (str_mul "-" 46)]] ++
                  map (fun r => EvPrint (sampling_row r)) results ++
                  [EvPrint [Lit (nl ++ "=== Sampling Evaluation GIFs ===")%string]])
                 ++ t) = displayed t).
  { intros t. destruct (printed_rows sampling_row results) as [Hp Hd].
    rewrite !printed_app, !displayed_app, Hp, Hd. cbn [printed displayed app].
    now rewrite <- !app_assoc. }
  unfold sampling_gif_listing.
  pose proof (listing_run X
                (fun r => [Lit "Layout: "; Fmt "" (VStr (sampling_layout r))])
                sampling_recorded_gif
                (fun (_ : unit) (entry : sampling_result) =>
                   let '(layout, _, _, gif_path) := entry in
                   bind (print [Lit "Layout: "; Fmt "" (VStr layout)])
                     (fun _ => show_gif X gif_path))
                (fun u r s0 => sampling_listing_body X r s0) results s) as L.
  pose proof (shown_printed X
                (fun r => [Lit "Layout: "; Fmt "" (VStr (sampling_layout r))])
                sampling_recorded_gif s) as P.
  destruct L as [[Hall E]|(rs1 & r & rs2 & e & Hsplit & Hall & He & Hd & E)];
    rewrite E; cbn [res final emitted].
  - split; [reflexivity|]. split; [reflexivity|]. split.
    + intros _. split; [exact Hall|].
      destruct (Htable (flat_map
                          (fun r : sampling_result =>
                             EvPrint [Lit "Layout: ";
                                      Fmt "" (VStr (sampling_layout r))]
                             :: EvExists (sampling_recorded_gif r)
                                  (ext_exists X (sampling_recorded_gif r)
                                     (world s))
                             :: (if ext_exists X (sampling_recorded_gif r)
                                      (world s)
                                 then [EvDisplay (sampling_recorded_gif r)]
                                 else [EvPrint
                                         [Lit "GIF not found: ";
                                          Fmt "" (VStr (sampling_recorded_gif r))]]))
                          results)) as [-> ->].
      destruct (P results) as [-> ->]. auto.
    + intros e0 H. discriminate H.
  - split; [reflexivity|]. split.
    + intros Hshow. exfalso. subst results.
      assert (Hr : In r (rs1 ++ r :: rs2)) by (apply in_elt).
      specialize (Hshow r Hr He). congruence.
    + split; [intros H; discriminate H|].
      intros e0 [= <-]. exists rs1, r, rs2.
      split; [exact Hsplit|]. split; [exact Hall|].
      split; [exact He|]. split; [exact Hd|].
      match goal with
      | |- printed (?pre ++ ?t) = _ /\ _ => destruct (Htable t) as [-> ->]
      end.
      rewrite printed_app, displayed_app.
      destruct (P rs1) as [-> ->]. cbn [printed displayed].
      now rewrite <- !app_assoc.
Qed.

Lemma sampling_report_output_witness :
  let results : list sampling_result :=
    [("cramped_room", Num 2, Sqrt 0,
      "generalization/cramped_room/eval_sampling.gif");
     ("forced_coordination", Num 0, Sqrt 0,
      "generalization/forced_coordination/eval_sampling.gif")] in
  let s : state demo_state :=
    {| world := (0, ["generalization/cramped_room/eval_sampling.gif"]);
       next_id := 0 |} in
  (res (cell_sampling_show demo_world results s) = Ok tt /\
   displayed (emitted (cell_sampling_show demo_world results s)) =
   ["generalization/cramped_room/eval_sampling.gif"]) /\
  (res (cell_sampling_show broken_gif_world results s) =
   Raise "ValueError: not an image" /\
   displayed (emitted (cell_sampling_show broken_gif_world results s)) =
   ["generalization/cramped_room/eval_sampling.gif"]).
Proof.
  cbv zeta. split.
  - destruct (sampling_report_output demo_world
                [("cramped_room", Num 2, Sqrt 0,
                  "generalization/cramped_room/eval_sampling.gif");
                 ("forced_coordination", Num 0, Sqrt 0,
                  "generalization/forced_coordination/eval_sampling.gif")]
                {| world :=
                     (0, ["generalization/cramped_room/eval_sampling.gif"]);
                   next_id := 0 |})
      as (_ & Hok & Hres & _).
    assert (E := Hok (fun r _ _ => eq_refl)).
    split; [exact E|].
    destruct (Hres E) as (_ & _ & Hd). rewrite Hd. vm_compute. reflexivity.
  - destruct (sampling_report_output broken_gif_world
                [("cramped_room", Num 2, Sqrt 0,
                  "generalization/cramped_room/eval_sampling.gif");
                 ("forced_coordination", Num 0, Sqrt 0,
                  "generalization/forced_coordination/eval_sampling.gif")]
                {| world :=
                     (0, ["generalization/cramped_room/eval_sampling.gif"]);
                   next_id := 0 |})
      as (_ & _ & _ & Hraise).
    assert (E : res (cell_sampling_show broken_gif_world
                [("cramped_room", Num 2, Sqrt 0,
                  "generalization/cramped_room/eval_sampling.gif");
                 ("forced_coordination", Num 0, Sqrt 0,
                  "generalization/forced_coordination/eval_sampling.gif")]
                {| world :=
                     (0, ["generalization/cramped_room/eval_sampling.gif"]);
                   next_id := 0 |}) = Raise "ValueError: not an image")
      by (vm_compute; reflexivity).
    split; [exact E|].
    destruct (Hraise _ E) as (rs1 & r & rs2 & Hsplit & Hall & _ & _ & _ & Hd).
    rewrite Hd. clear Hd Hraise E.
    destruct rs1 as [|r1 rs1]; cbn [app] in Hsplit.
    + injection Hsplit as <- _. reflexivity.
    + injection Hsplit as <- _.
      discriminate (Hall _ (in_eq _ _) eq_refl).
Defined.

(** X2.  The greedy report cell changes nothing and first prints the
    three header lines, one table row per entry of [results_greedy] in
    order (layout, reward as recorded) and the GIF header.  It then goes
    through the entries in order: it prints the fixed line
    [Layout: cramped_room] whatever the entry's layout and, when no file
    exists at the recorded path, the complaint; when one exists it hands
    it to [display].  It returns exactly when every such display returns;
    otherwise it raises what the first failing display raised and stops
    there, the later entries being neither printed nor displayed. *)
Theorem greedy_report_output {W : Type} (X : Externals W) :
  forall results s,
    let o := cell_greedy_show X results s in
    let found := fun p => ext_exists X p (world s) in
    let showable := fun r =>
      found (greedy_recorded_gif r) = true ->
      ext_display X (greedy_recorded_gif r) (world s) = Ok tt in
    let table :=
      [[Lit (nl ++ "===== Greedy Evaluation Results =====")%string];
       [Fmt "<25" (VStr "Layout"); Lit " | "; Fmt ">8" (VStr "Reward")];
       [Lit (str_mul "-" 36)]] ++
      map greedy_row results ++
      [[Lit (nl ++ "=== Greedy Evaluation GIFs ===")%string]] in
    let entry := fun r =>
      [Lit "Layout: cramped_room"]
      :: gif_complaint (found (greedy_recorded_gif r))
           (greedy_recorded_gif r) in
    final o = s /\
    ((forall r, In r results -> showable r) -> res o = Ok tt) /\
    (res o = Ok tt ->
     (forall r, In r results -> showable r) /\
     printed (emitted o) = table ++ flat_map entry results /\
     displayed (emitted o) =
       filter found (map greedy_recorded_gif results)) /\
    (forall e,
        res o = Raise e ->
        exists results1 r results2,
          results = results1 ++ r :: results2 /\
          (forall r', In r' results1 -> showable r') /\
          found (greedy_recorded_gif r) = true /\
          ext_display X (greedy_recorded_gif r) (world s) = Raise e /\
          printed (emitted o) =
            table ++ flat_map entry results1 ++
            [[Lit "Layout: cramped_room"]] /\
          displayed (emitted o) =
            filter found (map greedy_recorded_gif results1) ++
            [greedy_recorded_gif r]).
Proof.
  intros results s. cbv zeta.
  rewrite cell_greedy_show_run.
  destruct (after_readings
              ([EvPrint [Lit (nl ++ "===== Greedy Evaluation Results =====")%string];
                EvPrint [Fmt "<25" (VStr "Layout"); Lit " | ";
                         Fmt ">8" (VStr "Reward")];
                EvPrint [Lit (str_mul "-" 36)]] ++
               map (fun r => EvPrint (greedy_row r)) results ++
               [EvPrint [Lit (nl ++ "=== Greedy Evaluation GIFs ===")%string]])
              (greedy_gif_listing X results s)) as (-> & -> & ->).
  assert (Htable :
            forall t,
              printed
                (([EvPrint [Lit (nl ++ "===== Greedy Evaluation Results =====")%string];
                   EvPrint [Fmt "<25" (VStr "Layout"); Lit " | ";
                            Fmt ">8" (VStr "Reward")];
                   EvPrint [Lit (str_mul "-" 36)]] ++
                  map (fun r => EvPrint (greedy_row r)) results ++
                  [EvPrint [Lit (nl ++ "=== Greedy Evaluation GIFs ===")%string]])
                 ++ t) =
              ([[Lit (nl ++ "===== Greedy Evaluation Results =====")%string];
                [Fmt "<25" (VStr "Layout"); Lit " | ";
                 Fmt ">8" (VStr "Reward")];
                [Lit (str_mul "-" 36)]] ++
               map greedy_row results ++
               [[Lit (nl ++ "=== Greedy Evaluation GIFs ===")%string]]) ++
              printed t /\
              displayed
                (([EvPrint [Lit (nl ++ "===== Greedy Evaluation Results =====")%string];
                   EvPrint [Fmt "<25" (VStr "Layout"); Lit " | ";
                            Fmt ">8" (VStr "Reward")];
                   EvPrint [Lit (str_mul "-" 36)]] ++
                  map (fun r => EvPrint (greedy_row r)) results ++
                  [EvPrint [Lit (nl ++ "=== Greedy Evaluation GIFs ===")%string]])
                 ++ t) = displayed t).
  { intros t. destruct (printed_rows greedy_row results) as [Hp Hd].
    rewrite !printed_app, !displayed_app, Hp, Hd. cbn [printed displayed app].
    now rewrite <- !app_assoc. }
  unfold greedy_gif_listing.
  pose proof (listing_run X
                (fun _ : greedy_result => [Lit "Layout: cramped_room"])
                greedy_recorded_gif
                (fun (_ : unit) (entry : greedy_result) =>
                   let '(layout, _, gif_path) := entry in
                   bind (print [Lit "Layout: cramped_room"])
                     (fun _ => show_gif X gif_path))
                (fun u r s0 => greedy_listing_body X r s0) results s) as L.
  pose proof (shown_printed X
                (fun _ : greedy_result => [Lit "Layout: cramped_room"])
                greedy_recorded_gif s) as P.
  destruct L as [[Hall E]|(rs1 & r & rs2 & e & Hsplit & Hall & He & Hd & E)];
    rewrite E; cbn [res final emitted].
  - split; [reflexivity|]. split; [reflexivity|]. split.
    + intros _. split; [exact Hall|].
      match goal with
      | |- printed (?pre ++ ?t) = _ /\ _ => destruct (Htable t) as [-> ->]
      end.
      destruct (P results) as [-> ->]. auto.
    + intros e0 H. discriminate H.
  - split; [reflexivity|]. split.
    + intros Hshow. exfalso. subst results.
      assert (Hr : In r (rs1 ++ r :: rs2)) by (apply in_elt).
      specialize (Hshow r Hr He). congruence.
    + split; [intros H; discriminate H|].
      intros e0 [= <-]. exists rs1, r, rs2.
      split; [exact Hsplit|]. split; [exact Hall|].
      split; [exact He|]. split; [exact Hd|].
      match goal with
      | |- printed (?pre ++ ?t) = _ /\ _ => destruct (Htable t) as [-> ->]
      end.
      rewrite printed_app, displayed_app.
      destruct (P rs1) as [-> ->]. cbn [printed displayed].
      now rewrite <- !app_assoc.
Qed.

Lemma greedy_report_output_witness :
  let results : list greedy_result :=
    [("cramped_room", 20 # 1, "demo/generalization/cramped_room_eval_greedy.gif");
     ("forced_coordination", 0 # 1,
      "demo/generalization/forced_coordination_eval_greedy.gif")] in
  let s : state demo_state :=
    {| world := (0, ["demo/generalization/forced_coordination_eval_greedy.gif"]);
       next_id := 0 |} in
  (res (cell_greedy_show demo_world results s) = Ok tt /\
   displayed (emitted (cell_greedy_show demo_world results s)) =
   ["demo/generalization/forced_coordination_eval_greedy.gif"]) /\
  (res (cell_greedy_show broken_gif_world results s) =
   Raise "ValueError: not an image" /\
   displayed (emitted (cell_greedy_show broken_gif_world results s)) =
   ["demo/generalization/cramped_room_eval_greedy.gif"]).
Proof.
  cbv zeta. split.
  - destruct (greedy_report_output demo_world
                [("cramped_room", 20 # 1,
                  "demo/generalization/cramped_room_eval_greedy.gif");
                 ("forced_coordination", 0 # 1,
                  "demo/generalization/forced_coordination_eval_greedy.gif")]
                {| world :=
                     (0, ["demo/generalization/forced_coordination_eval_greedy.gif"]);
                   next_id := 0 |})
      as (_ & Hok & Hres & _).
    assert (E := Hok (fun r _ _ => eq_refl)).
    split; [exact E|].
    destruct (Hres E) as (_ & _ & Hd). rewrite Hd. vm_compute. reflexivity.
  - destruct (greedy_report_output broken_gif_world
                [("cramped_room", 20 # 1,
                  "demo/generalization/cramped_room_eval_greedy.gif");
                 ("forced_coordination", 0 # 1,
                  "demo/generalization/forced_coordination_eval_greedy.gif")]
                {| world :=
                     (0, ["demo/generalization/forced_coordination_eval_greedy.gif"]);
                   next_id := 0 |})
      as (_ & _ & _ & Hraise).
    assert (E : res (cell_greedy_show broken_gif_world
                [("cramped_room", 20 # 1,
                  "demo/generalization/cramped_room_eval_greedy.gif");
                 ("forced_coordination", 0 # 1,
                  "demo/generalization/forced_coordination_eval_greedy.gif")]
                {| world :=
                     (0, ["demo/generalization/forced_coordination_eval_greedy.gif"]);
                   next_id := 0 |}) = Raise "ValueError: not an image")
      by (vm_compute; reflexivity).
    split; [exact E|].
    destruct (Hraise _ E) as (rs1 & r & rs2 & Hsplit & Hall & _ & _ & _ & Hd).
    rewrite Hd. clear Hd Hraise E.
    destruct rs1 as [|r1 rs1]; cbn [app] in Hsplit.
    + injection Hsplit as <- _. reflexivity.
    + injection Hsplit as <- _.
      discriminate (Hall _ (in_eq _ _) eq_refl).
Defined.
